(** * multi_agent.py: the text-to-SQL pipeline

    A shallow embedding of [src/multi_agent.py]: the string helpers of
    Python that the program calls ([in], [split], [strip], [upper],
    [startswith], [join]), the SQL extractor, the four stage functions and
    the [__main__] block, followed by the properties of the specification.

    A text is the list of its code points, as a [str] of Python is.
    [strip] removes the white space of [str.isspace].  [upper] is
    [str.upper] on the ASCII letters and on every character whose upper
    case holds an ASCII letter; the other characters, whose upper case
    holds no ASCII character, are left as they are, which changes none of
    the comparisons of upper-cased text with ASCII text that the program
    makes. *)

From Stdlib Require Import String Ascii List Bool Arith NArith Lia.
Import ListNotations.

(** ** Python strings *)

Module Py.

(** A character is its code point. *)
Definition char := N.

Definition str := list char.

(** The code points of a UTF-8 text, read byte by byte: [need] counts the
    continuation bytes still to come, [acc] holds the bits read so far. *)
Fixpoint utf8 (need : nat) (acc : N) (bytes : list ascii) : str :=
  match bytes with
  | [] => []
  | b :: bytes' =>
      let n := N_of_ascii b in
      match need with
      | S k =>
          let acc' := (acc * 64 + n mod 64)%N in
          match k with
          | O => acc' :: utf8 0 0%N bytes'
          | S _ => utf8 k acc' bytes'
          end
      | O =>
          if (n <? 128)%N then n :: utf8 0 0%N bytes'
          else if (n <? 224)%N then utf8 1 (n mod 32)%N bytes'
          else if (n <? 240)%N then utf8 2 (n mod 16)%N bytes'
          else utf8 3 (n mod 8)%N bytes'
      end
  end.

(** String literals of the source are written [s2l "..."]. *)
Definition s2l (s : string) : str := utf8 0 0%N (list_ascii_of_string s).
Arguments s2l s%_string.

Definition newline : char := 10%N.

(** The line feed, for writing a literal of several lines. *)
Definition lf : string := String (ascii_of_nat 10) EmptyString.

(** [c.isspace()]: tab to carriage return, the separators 28 to 31,
    space, U+0085, U+00A0, U+1680, U+2000 to U+200A, U+2028, U+2029,
    U+202F, U+205F and U+3000. *)
Definition isspace (c : char) : bool :=
  ((9 <=? c) && (c <=? 13) || (28 <=? c) && (c <=? 32) ||
   (c =? 133) || (c =? 160) || (c =? 5760) ||
   (8192 <=? c) && (c <=? 8202) ||
   (c =? 8232) || (c =? 8233) || (c =? 8239) || (c =? 8287) ||
   (c =? 12288))%N.

(** The characters other than a to z whose upper case holds an ASCII
    letter, with their upper case: dotless i, long s, sharp s, n with
    apostrophe, j with caron, h with line below, t with diaeresis, w and y
    with ring, a with half ring, and the ligatures ff, fi, fl, ffi, ffl,
    long st and st. *)
Definition special_upper : list (char * str) :=
  [(305, [73]); (383, [83]); (223, [83; 83]); (329, [700; 78]);
   (496, [74; 780]); (7830, [72; 817]); (7831, [84; 776]);
   (7832, [87; 778]); (7833, [89; 778]); (7834, [65; 702]);
   (64256, [70; 70]); (64257, [70; 73]); (64258, [70; 76]);
   (64259, [70; 70; 73]); (64260, [70; 70; 76]);
   (64261, [83; 84]); (64262, [83; 84])]%N.

(** [c.upper()], which may hold several characters. *)
Definition upper_char (c : char) : str :=
  if ((97 <=? c) && (c <=? 122))%N then [(c - 32)%N]
  else match find (fun p => (fst p =? c)%N) special_upper with
       | Some (_, u) => u
       | None => [c]
       end.

(** [s.upper()] *)
Definition upper (s : str) : str := flat_map upper_char s.

Fixpoint lstrip (s : str) : str :=
  match s with
  | [] => []
  | c :: s' => if isspace c then lstrip s' else s
  end.

Definition rstrip (s : str) : str := rev (lstrip (rev s)).

(** [s.strip()] *)
Definition strip (s : str) : str := lstrip (rstrip s).

(** [a == b] *)
Definition str_eq (a b : str) : bool :=
  if list_eq_dec N.eq_dec a b then true else false.

(** [s.startswith(p)] *)
Fixpoint startswith (p s : str) : bool :=
  match p, s with
  | [], _ => true
  | _ :: _, [] => false
  | a :: p', b :: s' => (a =? b)%N && startswith p' s'
  end.

(** [s.startswith((p1, ..., pn))] and
    [any(s.startswith(p) for p in [p1, ..., pn])] *)
Definition startswith_any (ps : list str) (s : str) : bool :=
  existsb (fun p => startswith p s) ps.

(** [sep in s] *)
Fixpoint contains (sep s : str) : bool :=
  startswith sep s ||
  match s with
  | [] => false
  | _ :: s' => contains sep s'
  end.

(** [s.split(sep)] for a non-empty [sep]: the text is read from left to
    right; where [sep] starts, the piece read so far is closed and the
    characters of [sep] are skipped.  [skip] counts the characters of a
    separator still to be passed over, [cur] is the piece being read, in
    reverse. *)
Fixpoint split_go (sep : str) (skip : nat) (cur : str) (s : str) : list str :=
  match s with
  | [] => [rev cur]
  | c :: s' =>
      match skip with
      | S k => split_go sep k cur s'
      | O =>
          if startswith sep s
          then rev cur :: split_go sep (length sep - 1) [] s'
          else split_go sep 0 (c :: cur) s'
      end
  end.

Definition split (sep s : str) : list str := split_go sep 0 [] s.

(** [sep.join(xs)] *)
Fixpoint join (sep : str) (xs : list str) : str :=
  match xs with
  | [] => []
  | [x] => x
  | x :: xs' => x ++ sep ++ join sep xs'
  end.

(** [s.partition(sep)] without its middle component: the text before and
    after the first place where [sep] starts, [None] when there is none.
    The program does not call it; the properties below use it to name
    "the first fence" and "the next fence". *)
Fixpoint cut (sep s : str) : option (str * str) :=
  if startswith sep s then Some ([], skipn (length sep) s)
  else match s with
       | [] => None
       | c :: s' =>
           match cut sep s' with
           | Some (a, b) => Some (c :: a, b)
           | None => None
           end
       end.

(** The text before the first [sep], the whole text when there is none:
    [s.split(sep)[0]]. *)
Definition before (sep s : str) : str :=
  match cut sep s with
  | Some (a, _) => a
  | None => s
  end.

End Py.

(** ** The program *)

Module Pipeline.
Import Py.

Definition nl : str := [newline].

(** [schema_info] *)
Definition schema_info : str := s2l "
The database consists of the following tables:

1. **Airports**: 
    - airport_code (Primary Key, String)
    - city (String)
    - country (String)
    - name (String)

2. **Flights**: 
    - flight_id (Primary Key, Integer)
    - airline (String)
    - source (ForeignKey -> Airports.airport_code, String)
    - destination (ForeignKey -> Airports.airport_code, String)
    - departure_time (DateTime)
    - arrival_time (DateTime)
    - price (Float)
    - seats_available (Integer)

3. **Passengers**: 
    - passenger_id (Primary Key, Integer)
    - name (String)
    - email (String)
    - phone (String)

4. **Bookings**: 
    - booking_id (Primary Key, Integer)
    - passenger_id (ForeignKey -> Passengers.passenger_id, Integer)
    - flight_id (ForeignKey -> Flights.flight_id, Integer)
    - booking_date (DateTime, default current time)
    - status (String)
".

Definition sql_tag : str := s2l "```sql".
Definition fence : str := s2l "```".

(** The six statement keywords of [extract_sql_from_response]. *)
Definition keywords : list str :=
  map s2l ["SELECT"; "WITH"; "INSERT"; "UPDATE"; "DELETE"; "CREATE"]%string.

(** The explanatory markers that end the capture of lines. *)
Definition markers : list str :=
  map s2l ["Explanation"; "This query"]%string.

(** *** Exceptions, output and the monad of the program

    An exception carries the text [str(e)] gives.  The exceptions of the
    model are instances of [Exception], the class the handlers of the
    program catch. *)
Inductive exn : Type :=
| Exception (msg : str).

Definition str_of_exn (e : exn) : str :=
  match e with Exception msg => msg end.

Inductive res (A : Type) : Type :=
| Ok (a : A)
| Raise (e : exn).
Arguments Ok {A} a.
Arguments Raise {A} e.

(** What an invocation does to the outside, in order. *)
Inductive event : Type :=
| EvValidationCall (prompt : str)   (* validation_agent.run(prompt) *)
| EvQueryCall (prompt : str)        (* query_agent.run(prompt) *)
| EvExecute (sql : str)             (* session.execute(text(sql)).fetchall() *)
| EvSummarizerCall (prompt : str)   (* summarizer_agent.run(prompt) *)
| EvPrint (line : str)              (* print(line) *)
| EvClose.                          (* session.close() *)

(** A computation: the events it has produced, and its value or the
    exception that ended it. *)
Definition M (A : Type) : Type := (list event * res A)%type.

Definition ret {A} (a : A) : M A := ([], Ok a).

Definition bind {A B} (m : M A) (k : A -> M B) : M B :=
  match m with
  | (t, Ok a) => let (t', r) := k a in (t ++ t', r)
  | (t, Raise e) => (t, Raise e)
  end.

(** [try: m except Exception as e: h e] *)
Definition try_except {A} (m : M A) (h : exn -> M A) : M A :=
  match m with
  | (t, Ok a) => (t, Ok a)
  | (t, Raise e) => let (t', r) := h e in (t ++ t', r)
  end.

Definition emit (e : event) : M unit := ([e], Ok tt).
Definition print (line : str) : M unit := emit (EvPrint line).
Definition raise {A} (e : exn) : M A := ([], Raise e).

Declare Scope py_scope.
Delimit Scope py_scope with py.
Notation "x <- m ;; k" := (bind m (fun x => k))
  (at level 61, m at next level, right associativity) : py_scope.
Notation "m ;; k" := (bind m (fun _ => k))
  (at level 61, right associativity) : py_scope.
Local Open Scope py_scope.

(** [xs[i]], which raises [IndexError] out of range. *)
Definition index {A} (xs : list A) (i : nat) : M A :=
  match nth_error xs i with
  | Some x => ret x
  | None => raise (Exception (s2l "list index out of range"))
  end.

(** *** The SQL extractor *)

(** The loop of lines 108 to 116 over the lines still to be read, with
    the two variables it updates; the result is [sql_lines] when the loop
    ends, by exhaustion or by [break]. *)
Fixpoint scan_lines (lines : list str) (sql_lines : list str)
    (capturing : bool) : list str :=
  match lines with
  | [] => sql_lines
  | line :: rest =>
      let line := strip line in
      if negb capturing && startswith_any keywords (upper line) then
        scan_lines rest (sql_lines ++ [line]) true
      else if capturing then
        if match line with [] => true | _ => false end
           || startswith_any markers line
        then sql_lines
        else scan_lines rest (sql_lines ++ [line]) capturing
      else scan_lines rest sql_lines capturing
  end.

(** Lines 106 to 117: the line-scanning stage. *)
Definition line_scan (response : str) : option str :=
  let lines := split nl response in
  match scan_lines lines [] false with
  | [] => None
  | sql_lines => Some (join nl sql_lines)
  end.

(** The body of the [try] of [extract_sql_from_response]. *)
Definition extract_body (response : str) : M (option str) :=
  if contains sql_tag response then
    a <- index (split sql_tag response) 1 ;;
    b <- index (split fence a) 0 ;;
    ret (Some (strip b))
  else if contains fence response then
    a <- index (split fence response) 1 ;;
    let sql := strip a in
    if startswith_any keywords (upper sql) then ret (Some sql)
    else ret (line_scan response)
  else ret (line_scan response).

Definition extract_sql_from_response (response : str) : M (option str) :=
  try_except (extract_body response)
    (fun e => print (s2l "Extraction Error: " ++ str_of_exn e) ;; ret None).

(** *** The outside: the three agents and the datastore *)

(** What an agent's [run] returns: an object with a [content] attribute,
    or one without, of which [str] gives the text. *)
Inductive response : Type :=
| WithContent (content : str)
| Plain (text : str).

(** [getattr(r, "content", str(r))] *)
Definition content_of (r : response) : str :=
  match r with
  | WithContent c => c
  | Plain t => t
  end.

Section Stages.

(** A row of the datastore and [str] of a list of rows. *)
Variable row : Type.
Variable str_rows : list row -> str.

(** One invocation's outside: what each agent answers to a prompt and
    what the datastore answers to a statement, or how the call fails. *)
Record world : Type := {
  validation_agent_run : str -> res response;
  query_agent_run : str -> res response;
  summarizer_agent_run : str -> res response;
  session_execute : str -> res (list row)
}.

Variable w : world.

Definition call (e : event) {A} (r : res A) : M A := ([e], r).

(** What [execute_query] returns: the rows, or a text. *)
Inductive query_result : Type :=
| Rows (rows : list row)
| Text (text : str).

(** [str(results)] *)
Definition str_of_result (r : query_result) : str :=
  match r with
  | Rows rows => str_rows rows
  | Text t => t
  end.

Definition validate_prompt (prompt : str) : M bool :=
  result <- call (EvValidationCall prompt) (validation_agent_run w prompt) ;;
  let result := upper (strip (content_of result)) in
  ret (str_eq result (s2l "VALID")).

(** Python's truth value of an optional string: [None] and the empty
    string are false. *)
Definition truthy (sql : option str) : bool :=
  match sql with
  | Some (_ :: _) => true
  | _ => false
  end.

Definition generate_sql (prompt : str) : M (option str * option str) :=
  try_except
    (let q := prompt ++ nl ++ nl ++ s2l "Schema:" ++ nl ++ schema_info in
     response <- call (EvQueryCall q) (query_agent_run w q) ;;
     let response := content_of response in
     sql <- extract_sql_from_response response ;;
     ret (sql, if negb (truthy sql) then Some response else None))
    (fun e => ret (None, Some (s2l "SQL generation failed: " ++ str_of_exn e))).

Definition no_rows : str := s2l "✅ Query ran but returned no rows.".
Definition execution_error : str := s2l "❌ SQL execution error: ".

Definition execute_query (sql : str) : M query_result :=
  try_except
    (result <- call (EvExecute sql) (session_execute w sql) ;;
     ret (match result with [] => Text no_rows | _ => Rows result end))
    (fun e => ret (Text (execution_error ++ str_of_exn e))).

Definition summary_prompt (prompt : str) (results : query_result) : str :=
  s2l "User question: " ++ prompt ++ nl ++ nl ++
  s2l "Query result: " ++ str_of_result results ++ nl ++ nl ++
  s2l "Based on the schema provided earlier, summarize this result in a helpful way.".

Definition summarize_result (prompt : str) (results : query_result) : M str :=
  try_except
    (let results_str := str_of_result results in
     let p := summary_prompt prompt results in
     response <- call (EvSummarizerCall p) (summarizer_agent_run w p) ;;
     ret (strip (content_of response)))
    (fun e => ret (s2l "❌ Summarization error: " ++ str_of_exn e)).

(** [fallback or "No response."] *)
Definition or_no_response (fallback : option str) : str :=
  match fallback with
  | Some (c :: s) => c :: s
  | _ => s2l "No response."
  end.

(** The [__main__] block, for the line [input] has read. *)
Definition main (user_prompt : str) : M unit :=
  valid <- validate_prompt user_prompt ;;
  (if negb valid then
     print (s2l "⚠️ Your prompt is not related to the flight booking system.")
   else
     r <- generate_sql user_prompt ;;
     let (sql_query, fallback) := r in
     match sql_query with
     | Some (c :: s) =>
         let sql_query := c :: s in
         print (nl ++ s2l "✅ Generated SQL:" ++ nl ++ sql_query) ;;
         results <- execute_query sql_query ;;
         print (nl ++ s2l "📊 Query Results:" ++ nl ++ str_of_result results) ;;
         summary <- summarize_result user_prompt results ;;
         print (nl ++ s2l "📝 Summary:" ++ nl ++ summary)
     | _ =>
         print (nl ++ s2l "⚠️ Could not extract SQL. Here is the agent's response:" ++ nl) ;;
         print (or_no_response fallback)
     end) ;;
  emit EvClose.

End Stages.

Arguments validation_agent_run {row} w prompt : rename.
Arguments query_agent_run {row} w prompt : rename.
Arguments summarizer_agent_run {row} w prompt : rename.
Arguments session_execute {row} w sql : rename.
Arguments Rows {row} rows.
Arguments Text {row} text.
Arguments validate_prompt {row} w prompt.
Arguments generate_sql {row} w prompt.
Arguments execute_query {row} w sql.
Arguments str_of_result {row} str_rows r.
Arguments summary_prompt {row} str_rows prompt results.
Arguments summarize_result {row} str_rows w prompt results.
Arguments main {row} str_rows w user_prompt.

End Pipeline.

(** ** The vocabulary of the specification *)

Module Spec.
Import Py Pipeline.

(** A line led, case-insensitively, by one of the six keywords. *)
Definition keyword_led (line : str) : bool :=
  startswith_any keywords (upper line).

(** A line that ends the capture: a blank one, or one led by an
    explanatory marker. *)
Definition stops (line : str) : bool :=
  match line with
  | [] => true
  | _ :: _ => startswith_any markers line
  end.

(** The lines before the first line that ends the capture. *)
Fixpoint until_stop (lines : list str) : list str :=
  match lines with
  | [] => []
  | l :: rest => if stops l then [] else l :: until_stop rest
  end.

(** The first keyword-led line and the lines captured after it. *)
Fixpoint first_statement (lines : list str) : option (list str) :=
  match lines with
  | [] => None
  | l :: rest =>
      if keyword_led l then Some (l :: until_stop rest)
      else first_statement rest
  end.

(** The line-scanning stage as the specification words it, over the
    trimmed lines of the text. *)
Definition line_scan_spec (raw : str) : option str :=
  option_map (join nl) (first_statement (map strip (split nl raw))).




(** A text in the shape the line scan gives back: the first line is led
    by a keyword, no later line is blank or led by a marker, and no line
    has white space at its ends. *)
Definition bare_statement (s : str) : bool :=
  match split nl s with
  | [] => false
  | l :: rest =>
      keyword_led l &&
      forallb (fun x => negb (stops x)) rest &&
      forallb (fun x => str_eq (strip x) x) (l :: rest)
  end.

(** An outside whose answers do not depend on the request, with texts
    for rows. *)
Definition scripted (v q s : res response) (d : res (list str)) : world str :=
  {| validation_agent_run := fun _ => v;
     query_agent_run := fun _ => q;
     summarizer_agent_run := fun _ => s;
     session_execute := fun _ => d |}.

Definition show_rows (rows : list str) : str :=
  s2l "[" ++ join (s2l ", ") rows ++ s2l "]".

(** The three shapes of a query result. *)
Definition is_rows {row} (r : query_result row) : Prop :=
  exists x xs, r = Rows (x :: xs).

Definition is_no_rows_marker {row} (r : query_result row) : Prop :=
  r = Text no_rows.

Definition is_error_description {row} (r : query_result row) : Prop :=
  exists msg, r = Text (execution_error ++ msg).

Definition exactly_one (P Q R : Prop) : Prop :=
  (P /\ ~ Q /\ ~ R) \/ (~ P /\ Q /\ ~ R) \/ (~ P /\ ~ Q /\ R).

End Spec.

(** ** The vocabulary of runs *)

Module Runs.
Import Py Pipeline.

(** The value the extractor returns; [None] also stands for a run of the
    extractor that would end in its handler. *)
Definition extracted (response : str) : option str :=
  match extract_sql_from_response response with
  | (_, Ok v) => v
  | (_, Raise _) => None
  end.

(** The prompt [generate_sql] sends to the query agent. *)
Definition query_prompt (prompt : str) : str :=
  prompt ++ nl ++ nl ++ s2l "Schema:" ++ nl ++ schema_info.

(** The stages of a run, as its trace shows them: the four calls and the
    closing of the session; a [print] belongs to no stage. *)
Inductive stage : Type :=
| Validation
| Generation
| Execution
| Summarization
| Closing.

Definition stage_of (e : event) : option stage :=
  match e with
  | EvValidationCall _ => Some Validation
  | EvQueryCall _ => Some Generation
  | EvExecute _ => Some Execution
  | EvSummarizerCall _ => Some Summarization
  | EvPrint _ => None
  | EvClose => Some Closing
  end.

Fixpoint stages (t : list event) : list stage :=
  match t with
  | [] => []
  | e :: t' =>
      match stage_of e with
      | Some s => s :: stages t'
      | None => stages t'
      end
  end.

(** The texts [main] prints on its two early exits. *)
Definition irrelevant_notice : str :=
  s2l "⚠️ Your prompt is not related to the flight booking system.".

Definition extraction_notice : str :=
  nl ++ s2l "⚠️ Could not extract SQL. Here is the agent's response:" ++ nl.

End Runs.

(** ** Facts about the string helpers *)

Module PyFacts.
Import Py.

Lemma startswith_app (p t : str) : startswith p (p ++ t) = true.
Proof.
  induction p as [|a p IH]; simpl; [reflexivity|].
  now rewrite N.eqb_refl.
Qed.

Lemma startswith_inv (p s : str) :
  startswith p s = true -> exists t, s = p ++ t.
Proof.
  revert s; induction p as [|a p IH]; intros s H.
  - now exists s.
  - destruct s as [|b s]; simpl in H; [discriminate|].
    apply andb_prop in H as [Hab Hp].
    apply N.eqb_eq in Hab; subst b.
    destruct (IH _ Hp) as [t ->].
    now exists t.
Qed.

Lemma startswith_iff (p s : str) :
  startswith p s = true <-> exists t, s = p ++ t.
Proof.
  split; [apply startswith_inv|].
  intros [t ->]; apply startswith_app.
Qed.

Lemma startswith_length (p s : str) :
  startswith p s = true -> length p <= length s.
Proof.
  intros H; apply startswith_inv in H as [t ->].
  rewrite length_app; lia.
Qed.

Lemma startswith_nil_r (p : str) : p <> [] -> startswith p [] = false.
Proof. destruct p; [congruence | reflexivity]. Qed.

Lemma contains_eq (sep s : str) :
  contains sep s =
  startswith sep s || match s with [] => false | _ :: s' => contains sep s' end.
Proof. destruct s; reflexivity. Qed.

Lemma cut_nil (sep : str) :
  cut sep [] = if startswith sep [] then Some ([], skipn (length sep) []) else None.
Proof. reflexivity. Qed.

Lemma cut_cons (sep : str) (c : char) (s : str) :
  cut sep (c :: s) =
  if startswith sep (c :: s) then Some ([], skipn (length sep) (c :: s))
  else match cut sep s with
       | Some (a, b) => Some (c :: a, b)
       | None => None
       end.
Proof. reflexivity. Qed.

Lemma cut_startswith (sep s : str) :
  startswith sep s = true -> cut sep s = Some ([], skipn (length sep) s).
Proof.
  intros H. destruct s; [rewrite cut_nil | rewrite cut_cons]; now rewrite H.
Qed.

Lemma skipn_startswith (p s : str) :
  startswith p s = true -> s = p ++ skipn (length p) s.
Proof.
  intros H; apply startswith_inv in H as [t ->].
  now rewrite skipn_app, skipn_all, Nat.sub_diag.
Qed.

(** [cut] splits the text around an occurrence of the separator. *)
Lemma cut_sound (sep s a b : str) :
  cut sep s = Some (a, b) -> s = a ++ sep ++ b.
Proof.
  revert a b; induction s as [|c s IH]; intros a b; [rewrite cut_nil | rewrite cut_cons].
  - destruct (startswith sep []) eqn:E; [|discriminate].
    intros [= <- <-]. now apply skipn_startswith.
  - destruct (startswith sep (c :: s)) eqn:E.
    + intros [= <- <-]. now apply skipn_startswith.
    + destruct (cut sep s) as [[a' b']|]; [|discriminate].
      intros [= <- <-]. simpl. f_equal. now apply IH.
Qed.

(** The occurrence [cut] finds is the leftmost one. *)
Lemma cut_leftmost (sep s a b : str) :
  cut sep s = Some (a, b) ->
  forall a' b', s = a' ++ sep ++ b' -> length a <= length a'.
Proof.
  revert a b; induction s as [|c s IH]; intros a b; [rewrite cut_nil | rewrite cut_cons].
  - destruct (startswith sep []); [|discriminate].
    intros [= <- <-] a' b' _; simpl; lia.
  - destruct (startswith sep (c :: s)) eqn:E.
    + intros [= <- <-] a' b' _; simpl; lia.
    + destruct (cut sep s) as [[a0 b0]|] eqn:C; [|discriminate].
      intros [= <- <-] a' b' H.
      destruct a' as [|c' a'].
      * simpl in H. rewrite H, startswith_app in E. discriminate.
      * simpl in H. injection H as _ H.
        specialize (IH _ _ eq_refl _ _ H). simpl; lia.
Qed.

Lemma cut_None_contains (sep s : str) :
  cut sep s = None <-> contains sep s = false.
Proof.
  induction s as [|c s IH]; [rewrite cut_nil | rewrite cut_cons]; rewrite contains_eq.
  - destruct (startswith sep []); simpl; split; congruence.
  - destruct (startswith sep (c :: s)); simpl; [split; congruence|].
    destruct (cut sep s) as [[a b]|].
    + split; [discriminate|]. intros H. apply IH in H. discriminate.
    + split; [|reflexivity]. intros _. now apply IH.
Qed.

Lemma cut_complete (sep s a b : str) :
  s = a ++ sep ++ b -> exists a0 b0, cut sep s = Some (a0, b0).
Proof.
  revert s; induction a as [|c a IH]; intros s ->.
  - rewrite app_nil_l, cut_startswith by apply startswith_app. eauto.
  - rewrite <- app_comm_cons, cut_cons.
    destruct (startswith sep (c :: a ++ sep ++ b)); [eauto|].
    destruct (IH _ eq_refl) as (a0 & b0 & ->). eauto.
Qed.

Lemma contains_iff (sep s : str) :
  contains sep s = true <-> exists a b, s = a ++ sep ++ b.
Proof.
  split.
  - intros H. destruct (cut sep s) as [[a b]|] eqn:C.
    + exists a, b. now apply cut_sound.
    + apply cut_None_contains in C. congruence.
  - intros (a & b & H). apply cut_complete in H as (a0 & b0 & C).
    destruct (contains sep s) eqn:E; [reflexivity|].
    apply cut_None_contains in E. congruence.
Qed.

Lemma app_eq_length {A} (a a' x x' : list A) :
  a ++ x = a' ++ x' -> length a = length a' -> a = a' /\ x = x'.
Proof.
  revert a'; induction a as [|c a IH]; intros [|c' a'] H L;
    simpl in *; try discriminate; [auto|].
  injection H as -> H. destruct (IH a' H) as [-> ->]; [lia | auto].
Qed.

(** [cut] is determined by the leftmost occurrence. *)
Lemma cut_intro (sep s a b : str) :
  s = a ++ sep ++ b ->
  (forall a' b', s = a' ++ sep ++ b' -> length a <= length a') ->
  cut sep s = Some (a, b).
Proof.
  intros H Hmin.
  destruct (cut_complete _ _ _ _ H) as (a0 & b0 & C).
  pose proof (cut_sound _ _ _ _ C) as H0.
  pose proof (cut_leftmost _ _ _ _ C _ _ H) as L1.
  pose proof (Hmin _ _ H0) as L2.
  rewrite H in H0.
  destruct (app_eq_length _ _ _ _ H0) as [-> E]; [lia|].
  apply app_inv_head in E. now subst.
Qed.

(** *** [split] in terms of [cut] *)

Lemma split_go_skip (sep : str) (s : str) :
  forall k cur, k <= length s ->
  split_go sep k cur s = split_go sep 0 cur (skipn k s).
Proof.
  induction s as [|c s IH]; intros k cur L.
  - simpl in L. now replace k with 0 by lia.
  - destruct k as [|k]; [reflexivity|].
    simpl in L. simpl split_go at 1. rewrite IH by lia. reflexivity.
Qed.

Lemma split_go_cut (sep : str) (s : str) :
  sep <> [] ->
  forall cur,
  split_go sep 0 cur s =
  match cut sep s with
  | Some (a, b) => (rev cur ++ a) :: split_go sep 0 [] b
  | None => [rev cur ++ s]
  end.
Proof.
  intros Hsep. induction s as [|c s IH]; intros cur; [rewrite cut_nil | rewrite cut_cons].
  - rewrite (startswith_nil_r _ Hsep). simpl. now rewrite app_nil_r.
  - simpl split_go. destruct (startswith sep (c :: s)) eqn:E.
    + rewrite app_nil_r. f_equal.
      apply startswith_length in E.
      destruct sep as [|x sep]; [congruence|].
      rewrite split_go_skip by (simpl in *; lia).
      simpl. now rewrite ?Nat.sub_0_r.
    + rewrite IH. destruct (cut sep s) as [[a b]|]; simpl;
        now rewrite <- app_assoc.
Qed.

(** The equation of [s.split(sep)]. *)
Lemma split_cut (sep s : str) :
  sep <> [] ->
  split sep s =
  match cut sep s with
  | Some (a, b) => a :: split sep b
  | None => [s]
  end.
Proof.
  intros Hsep. unfold split. rewrite split_go_cut by assumption.
  now destruct (cut sep s) as [[a b]|].
Qed.

Lemma split_head (sep s : str) :
  sep <> [] -> nth_error (split sep s) 0 = Some (before sep s).
Proof.
  intros Hsep. rewrite split_cut by assumption. unfold before.
  now destruct (cut sep s) as [[a b]|].
Qed.

Lemma split_second (sep s a b : str) :
  sep <> [] -> cut sep s = Some (a, b) ->
  nth_error (split sep s) 1 = Some (before sep b).
Proof.
  intros Hsep C. rewrite split_cut, C by assumption.
  simpl. now apply split_head.
Qed.

Lemma before_no_occurrence (sep s : str) :
  contains sep s = false -> before sep s = s.
Proof.
  intros H. apply cut_None_contains in H. unfold before. now rewrite H.
Qed.

Lemma app_eq_app_le {A} (a a' u u' : list A) :
  a ++ u = a' ++ u' -> length a' <= length a ->
  exists x, a = a' ++ x /\ u' = x ++ u.
Proof.
  revert a; induction a' as [|c a' IH]; intros a H L.
  - exists a. simpl in *. auto.
  - destruct a as [|d a]; simpl in *; [lia|].
    injection H as -> H. destruct (IH a H) as (x & -> & ->); [lia|].
    now exists x.
Qed.

(** The leftmost occurrence in a text is the leftmost occurrence in every
    prefix of the text that holds it whole. *)
Lemma cut_in_prefix (sep u v a b x : str) :
  cut sep (u ++ v) = Some (a, b) -> u = a ++ sep ++ x ->
  cut sep u = Some (a, x).
Proof.
  intros C E. apply cut_intro; [assumption|].
  intros a' b' E'. apply (cut_leftmost _ _ _ _ C a' (b' ++ v)).
  rewrite E'. now rewrite <- !app_assoc.
Qed.

Lemma cut_short_prefix (sep u v a b : str) :
  cut sep (u ++ v) = Some (a, b) -> length u < length a + length sep ->
  cut sep u = None.
Proof.
  intros C L. destruct (cut sep u) as [[a' b']|] eqn:C'; [exfalso|reflexivity].
  apply cut_sound in C'.
  assert (length a <= length a').
  { apply (cut_leftmost _ _ _ _ C a' (b' ++ v)).
    rewrite C'. now rewrite <- !app_assoc. }
  rewrite C', !length_app in L. lia.
Qed.

(** *** [strip] *)

Lemma lstrip_decompose (s : str) : exists ws, s = ws ++ lstrip s.
Proof.
  induction s as [|c s [ws IH]]; [now exists []|].
  simpl. destruct (isspace c).
  - exists (c :: ws). simpl. now f_equal.
  - now exists [].
Qed.

Lemma lstrip_length (s : str) : length (lstrip s) <= length s.
Proof.
  destruct (lstrip_decompose s) as [ws E].
  rewrite E at 2. rewrite length_app. lia.
Qed.

Lemma lstrip_idem (s : str) : lstrip (lstrip s) = lstrip s.
Proof.
  induction s as [|c s IH]; [reflexivity|].
  simpl. destruct (isspace c) eqn:E; [assumption|].
  simpl. now rewrite E.
Qed.

Lemma lstrip_app_fixed (t u : str) :
  lstrip (t ++ u) = t ++ u -> lstrip t = t.
Proof.
  destruct t as [|c t]; [reflexivity|].
  simpl. destruct (isspace c); [|reflexivity].
  intros H. pose proof (lstrip_length (t ++ u)) as L.
  rewrite H in L. simpl in L. lia.
Qed.

(** A text is what [strip] returns, between two runs it removes. *)
Lemma strip_decompose (s : str) : exists a b, s = a ++ strip s ++ b.
Proof.
  unfold strip.
  destruct (lstrip_decompose (rstrip s)) as [a Ha].
  destruct (lstrip_decompose (rev s)) as [b Hb].
  exists a, (rev b).
  rewrite app_assoc, <- Ha. unfold rstrip.
  rewrite <- rev_app_distr, <- Hb. now rewrite rev_involutive.
Qed.

Lemma strip_idem (s : str) : strip (strip s) = strip s.
Proof.
  assert (R : lstrip (rev (strip s)) = rev (strip s)).
  { unfold strip.
    destruct (lstrip_decompose (rstrip s)) as [ws E].
    apply lstrip_app_fixed with (u := rev ws).
    rewrite <- rev_app_distr, <- E. unfold rstrip.
    rewrite rev_involutive. apply lstrip_idem. }
  unfold strip at 1. unfold rstrip. rewrite R, rev_involutive.
  unfold strip. apply lstrip_idem.
Qed.

Lemma strip_In (c : char) (s : str) : In c (strip s) -> In c s.
Proof.
  intros H. destruct (strip_decompose s) as (a & b & E).
  rewrite E. apply in_or_app. right. apply in_or_app. now left.
Qed.

Lemma contains_strip (p s : str) :
  contains p (strip s) = true -> contains p s = true.
Proof.
  intros H. apply contains_iff in H as (u & v & E).
  destruct (strip_decompose s) as (a & b & E').
  apply contains_iff. exists (a ++ u), (v ++ b).
  rewrite E', E. now rewrite <- !app_assoc.
Qed.

(** *** Induction along [split] *)

Lemma cut_shorter (sep s a b : str) :
  sep <> [] -> cut sep s = Some (a, b) -> length b < length s.
Proof.
  intros Hsep C. apply cut_sound in C. subst s.
  rewrite !length_app. destruct sep; [congruence|]. simpl. lia.
Qed.

Lemma split_ind (sep : str) (P : str -> list str -> Prop) :
  sep <> [] ->
  (forall s, cut sep s = None -> P s [s]) ->
  (forall s a b, cut sep s = Some (a, b) ->
     P b (split sep b) -> P s (a :: split sep b)) ->
  forall s, P s (split sep s).
Proof.
  intros Hsep Hnone Hsome s.
  remember (length s) as n eqn:Hn. revert s Hn.
  induction n as [n IH] using lt_wf_ind. intros s ->.
  rewrite split_cut by assumption.
  destruct (cut sep s) as [[a b]|] eqn:C.
  - apply Hsome; [assumption|].
    apply (IH (length b)); [now apply cut_shorter with (sep := sep) (a := a) | reflexivity].
  - now apply Hnone.
Qed.

(** A piece of [s.split(sep)] is a part of [s]. *)
Lemma split_part (sep s l : str) :
  sep <> [] -> In l (split sep s) -> exists a b, s = a ++ l ++ b.
Proof.
  intros Hsep. revert l.
  apply (split_ind sep (fun s ls => forall l, In l ls -> exists a b, s = a ++ l ++ b));
    [assumption| |].
  - intros s' _ l [<-|[]]. exists [], []. now rewrite app_nil_r.
  - intros s' a b C IH l [<-|H].
    + exists [], (sep ++ b). exact (cut_sound _ _ _ _ C).
    + destruct (IH l H) as (u & v & E). exists (a ++ sep ++ u), v.
      apply cut_sound in C. rewrite C, E. now rewrite <- !app_assoc.
Qed.

Lemma contains_char (c : char) (s : str) :
  contains [c] s = true <-> In c s.
Proof.
  rewrite contains_iff. split.
  - intros (a & b & ->). apply in_or_app. right. now left.
  - intros H. apply in_split in H as (a & b & ->). now exists a, b.
Qed.

Lemma cut_char_before (c : char) (s a b : str) :
  cut [c] s = Some (a, b) -> ~ In c a.
Proof.
  intros C H. apply in_split in H as (u & v & ->).
  pose proof (cut_sound _ _ _ _ C) as E.
  assert (L : length (u ++ c :: v) <= length u).
  { apply (cut_leftmost _ _ _ _ C u (v ++ [c] ++ b)).
    rewrite E. now rewrite <- !app_assoc. }
  rewrite length_app in L. simpl in L. lia.
Qed.

(** The pieces of a split at one character do not hold the character. *)
Lemma split_char_free (c : char) (s l : str) :
  In l (split [c] s) -> ~ In c l.
Proof.
  revert l.
  apply (split_ind [c] (fun _ ls => forall l, In l ls -> ~ In c l));
    [discriminate| |].
  - intros s' C l [<-|[]]. rewrite <- contains_char.
    apply cut_None_contains in C. congruence.
  - intros s' a b C IH l [<-|H]; [|now apply IH].
    now apply cut_char_before with (s := s') (b := b).
Qed.

(** *** [join] *)

Lemma join_cons (sep x y : str) (r : list str) :
  join sep (x :: y :: r) = x ++ sep ++ join sep (y :: r).
Proof. reflexivity. Qed.

Lemma cut_char_first (c : char) (l t : str) :
  ~ In c l -> cut [c] (l ++ [c] ++ t) = Some (l, t).
Proof.
  intros N. apply cut_intro; [reflexivity|].
  intros a' b' E.
  destruct (Nat.le_gt_cases (length l) (length a')) as [L|L]; [assumption|].
  exfalso. symmetry in E.
  destruct (app_eq_app_le l a' _ _ (eq_sym E)) as (x & -> & E'); [lia|].
  destruct x as [|d x]; [rewrite app_nil_r in L; lia|].
  simpl in E'. injection E' as -> _.
  apply N, in_or_app. right. now left.
Qed.

(** Splitting at line feeds what was joined with line feeds gives the
    lines back, when no line holds a line feed. *)
Lemma split_join (c : char) (ls : list str) :
  ls <> [] -> Forall (fun l => ~ In c l) ls ->
  split [c] (join [c] ls) = ls.
Proof.
  induction ls as [|l ls IH]; [congruence|]. intros _ F.
  inversion F as [|? ? Hl Hls]; subst.
  rewrite split_cut by discriminate.
  destruct ls as [|l' ls].
  - simpl. rewrite <- contains_char in Hl.
    destruct (contains [c] l) eqn:E; [congruence|].
    apply cut_None_contains in E. now rewrite E.
  - rewrite join_cons, cut_char_first by assumption.
    f_equal. apply IH; [discriminate | assumption].
Qed.

(** A text that does not hold [c] occurs in [u ++ [c] ++ v] within [u] or
    within [v]. *)
Lemma contains_across_char (p u v : str) (c : char) :
  ~ In c p -> contains p (u ++ [c] ++ v) = true ->
  contains p u = true \/ contains p v = true.
Proof.
  intros N H. apply contains_iff in H as (a & b & E).
  destruct (Nat.le_gt_cases (length a) (length u)) as [L|L].
  - destruct (app_eq_app_le _ _ _ _ E L) as (x & -> & E').
    destruct (Nat.le_gt_cases (length p) (length x)) as [L'|L'].
    + symmetry in E'.
      destruct (app_eq_app_le _ _ _ _ E' L') as (y & -> & _).
      left. apply contains_iff. now exists a, y.
    + destruct (app_eq_app_le p x b ([c] ++ v)) as (z & -> & E'');
        [assumption | lia |].
      destruct z as [|d z]; [rewrite app_nil_r in L'; lia|].
      simpl in E''. injection E'' as <- _.
      exfalso. apply N, in_or_app. right. now left.
  - symmetry in E.
    destruct (app_eq_app_le a u (p ++ b) ([c] ++ v)) as (y & -> & E');
      [assumption | lia |].
    destruct y as [|d y]; [rewrite app_nil_r in L; lia|].
    simpl in E'. injection E' as _ ->.
    right. apply contains_iff. now exists y, b.
Qed.

Lemma contains_join (p : str) (c : char) (ls : list str) :
  ~ In c p -> p <> [] -> contains p (join [c] ls) = true ->
  Exists (fun l => contains p l = true) ls.
Proof.
  intros N Hp. induction ls as [|l ls IH]; intros H.
  - simpl in H. rewrite startswith_nil_r in H by assumption. discriminate.
  - destruct ls as [|l' ls]; [now left|].
    rewrite join_cons in H.
    apply contains_across_char in H as [H|H]; [now left | right; auto | assumption].
Qed.

End PyFacts.

(** ** Facts about the extractor *)

Module ExtractFacts.
Import Py PyFacts Pipeline Spec.
Local Open Scope py_scope.

Lemma bind_ret_l {A B} (a : A) (k : A -> M B) : bind (ret a) k = k a.
Proof. unfold bind, ret. now destruct (k a). Qed.

Lemma try_except_ret {A} (a : A) (h : exn -> M A) :
  try_except (ret a) h = ret a.
Proof. reflexivity. Qed.

Lemma sql_tag_nonempty : sql_tag <> [].
Proof. discriminate. Qed.

Lemma fence_nonempty : fence <> [].
Proof. discriminate. Qed.

Lemma nl_nonempty : nl <> [].
Proof. discriminate. Qed.

#[local] Hint Resolve sql_tag_nonempty fence_nonempty nl_nonempty : core.

(** An SQL tag starts with a fence. *)
Lemma contains_tag_fence (s : str) :
  contains sql_tag s = true -> contains fence s = true.
Proof.
  intros H. apply contains_iff in H as (a & b & ->).
  apply contains_iff. exists a, (s2l "sql" ++ b). reflexivity.
Qed.

Lemma no_fence_no_tag (s : str) :
  contains fence s = false -> contains sql_tag s = false.
Proof.
  intros H. destruct (contains sql_tag s) eqn:E; [|reflexivity].
  apply contains_tag_fence in E. congruence.
Qed.

Lemma cut_contains (sep s a b : str) :
  cut sep s = Some (a, b) -> contains sep s = true.
Proof.
  intros C. destruct (contains sep s) eqn:E; [reflexivity|].
  apply cut_None_contains in E. congruence.
Qed.

(** The three stages of the extractor, each as one equation. *)

Lemma extract_tagged (r pre rest : str) :
  cut sql_tag r = Some (pre, rest) ->
  extract_sql_from_response r =
  ret (Some (strip (before fence (before sql_tag rest)))).
Proof.
  intros C. unfold extract_sql_from_response, extract_body, index.
  rewrite (cut_contains _ _ _ _ C).
  rewrite (split_second _ _ _ _ sql_tag_nonempty C), bind_ret_l.
  rewrite split_head, bind_ret_l by auto.
  reflexivity.
Qed.

Lemma extract_generic (r pre rest : str) :
  contains sql_tag r = false ->
  cut fence r = Some (pre, rest) ->
  extract_sql_from_response r =
  ret (let sql := strip (before fence rest) in
       if startswith_any keywords (upper sql) then Some sql
       else line_scan r).
Proof.
  intros T C. unfold extract_sql_from_response, extract_body, index.
  rewrite T, (cut_contains _ _ _ _ C).
  rewrite (split_second _ _ _ _ fence_nonempty C), bind_ret_l.
  cbv zeta.
  now destruct (startswith_any keywords (upper (strip (before fence rest)))).
Qed.

Lemma extract_plain (r : str) :
  contains fence r = false ->
  extract_sql_from_response r = ret (line_scan r).
Proof.
  intros F. unfold extract_sql_from_response, extract_body.
  now rewrite (no_fence_no_tag _ F), F.
Qed.

(** The extractor never raises and prints nothing: the handler of its
    [try] is never entered. *)
Lemma extract_returns (r : str) :
  exists v, extract_sql_from_response r = ret v.
Proof.
  destruct (cut sql_tag r) as [[pre rest]|] eqn:T.
  - eexists. eapply extract_tagged; eassumption.
  - apply cut_None_contains in T.
    destruct (cut fence r) as [[pre rest]|] eqn:F.
    + eexists. eapply extract_generic; eassumption.
    + apply cut_None_contains in F. eexists. now apply extract_plain.
Qed.

(** Where the fence after the tag is not lengthened into a further tag,
    cutting at the next tag and then at the next fence is cutting at the
    next fence. *)
Lemma next_fence_before_tag (rest body post : str) :
  cut fence rest = Some (body, post) ->
  startswith (s2l "`sql") post = false ->
  startswith (s2l "``sql") post = false ->
  before fence (before sql_tag rest) = body.
Proof.
  intros C N1 N2. unfold before at 2.
  destruct (cut sql_tag rest) as [[a b]|] eqn:T;
    [|unfold before; now rewrite C].
  pose proof (cut_sound _ _ _ _ C) as Hb.
  pose proof (cut_sound _ _ _ _ T) as Ha.
  assert (L : length body <= length a).
  { apply (cut_leftmost _ _ _ _ C a (s2l "sql" ++ b)).
    rewrite Ha. reflexivity. }
  rewrite Ha in Hb.
  destruct (app_eq_app_le _ _ _ _ Hb L) as (x & Ex & Ep).
  rewrite Ha in C. unfold before.
  destruct x as [|c1 [|c2 [|c3 x]]];
    cbv [fence sql_tag s2l list_ascii_of_string app] in Ep.
  - rewrite app_nil_r in Ex. subst a.
    rewrite (cut_short_prefix _ _ _ _ _ C); [reflexivity|simpl; lia].
  - injection Ep as _ E. subst post. discriminate.
  - injection Ep as _ _ E. subst post. discriminate.
  - injection Ep as E1 E2 E3 E. subst post c1 c2 c3.
    rewrite (cut_in_prefix _ _ _ _ _ x C); [reflexivity|].
    rewrite Ex. reflexivity.
Qed.

(** *** The loop of the line-scanning stage *)

Lemma stops_eq (l : str) :
  stops l = (match l with [] => true | _ => false end || startswith_any markers l).
Proof. now destruct l. Qed.

Lemma scan_lines_cons (l : str) (lines acc : list str) (capturing : bool) :
  scan_lines (l :: lines) acc capturing =
  if negb capturing && keyword_led (strip l) then
    scan_lines lines (acc ++ [strip l]) true
  else if capturing then
    if stops (strip l) then acc
    else scan_lines lines (acc ++ [strip l]) capturing
  else scan_lines lines acc capturing.
Proof. rewrite stops_eq. reflexivity. Qed.

(** Once capturing, the loop appends the lines before the first stop. *)
Lemma scan_lines_capturing (lines : list str) :
  forall acc,
  scan_lines lines acc true = acc ++ until_stop (map strip lines).
Proof.
  induction lines as [|l lines IH]; intros acc.
  - simpl. now rewrite app_nil_r.
  - rewrite scan_lines_cons. cbn [negb andb map until_stop].
    destruct (stops (strip l)).
    + now rewrite app_nil_r.
    + rewrite IH, <- app_assoc. reflexivity.
Qed.

(** Before capturing, the loop looks for the first keyword-led line. *)
Lemma scan_lines_idle (lines : list str) :
  scan_lines lines [] false =
  match first_statement (map strip lines) with
  | Some captured => captured
  | None => []
  end.
Proof.
  induction lines as [|l lines IH]; [reflexivity|].
  rewrite scan_lines_cons. cbn [negb andb map first_statement].
  destruct (keyword_led (strip l)).
  - apply scan_lines_capturing.
  - apply IH.
Qed.

Lemma until_stop_spec (lines : list str) :
  incl (until_stop lines) lines /\
  Forall (fun l => stops l = false) (until_stop lines).
Proof.
  induction lines as [|l lines [I F]]; simpl.
  - split; [apply incl_refl | constructor].
  - destruct (stops l) eqn:E.
    + split; [apply incl_nil_l | constructor].
    + split; [|now constructor].
      apply incl_cons; [now left|]. now apply incl_tl.
Qed.

(** What the specification's scan returns: a keyword-led line of the
    text, followed by lines of the text that do not stop the capture. *)
Lemma first_statement_spec (lines captured : list str) :
  first_statement lines = Some captured ->
  exists l rest,
    captured = l :: rest /\ keyword_led l = true /\
    Forall (fun l => stops l = false) rest /\ incl captured lines.
Proof.
  induction lines as [|l lines IH]; simpl; [discriminate|].
  destruct (keyword_led l) eqn:K.
  - intros [= <-]. exists l, (until_stop lines).
    destruct (until_stop_spec lines) as [I F].
    repeat split; try assumption.
    apply incl_cons; [now left|]. now apply incl_tl.
  - intros H. destruct (IH H) as (l0 & rest & -> & K0 & F & I).
    exists l0, rest. repeat split; try assumption. now apply incl_tl.
Qed.

Lemma line_scan_refines (raw : str) : line_scan raw = line_scan_spec raw.
Proof.
  unfold line_scan, line_scan_spec. rewrite scan_lines_idle.
  destruct (first_statement (map strip (split nl raw))) as [captured|] eqn:E;
    [|reflexivity].
  apply first_statement_spec in E as (l & rest & -> & _). reflexivity.
Qed.

Lemma keyword_led_nonempty (l : str) : keyword_led l = true -> l <> [].
Proof. intros H ->. discriminate. Qed.

Lemma join_nonempty (sep l : str) (rest : list str) :
  l <> [] -> join sep (l :: rest) <> [].
Proof.
  intros Hl. destruct rest; simpl; [assumption|].
  destruct l; [congruence | discriminate].
Qed.

Lemma line_scan_nonempty (raw s : str) : line_scan raw = Some s -> s <> [].
Proof.
  rewrite line_scan_refines. unfold line_scan_spec.
  destruct (first_statement (map strip (split nl raw))) as [captured|] eqn:E;
    [|discriminate].
  apply first_statement_spec in E as (l & rest & -> & K & _).
  cbn [option_map]. intros H.
  assert (E : s = join nl (l :: rest)) by congruence.
  rewrite E. apply join_nonempty. now apply keyword_led_nonempty.
Qed.

Lemma until_stop_all (lines : list str) :
  Forall (fun l => stops l = false) lines -> until_stop lines = lines.
Proof.
  induction 1 as [|l lines Hl _ IH]; simpl; [reflexivity|].
  now rewrite Hl, IH.
Qed.

Lemma map_fixed {A} (f : A -> A) (xs : list A) :
  Forall (fun x => f x = x) xs -> map f xs = xs.
Proof. induction 1; simpl; congruence. Qed.

(** A result of the line-scanning stage that holds no fence is a fixed
    point of the extractor. *)
Lemma line_scan_stable (raw s : str) :
  line_scan raw = Some s -> contains fence s = false ->
  extract_sql_from_response s = ret (Some s).
Proof.
  intros H N. rewrite (extract_plain _ N). f_equal.
  rewrite line_scan_refines in *. unfold line_scan_spec in *.
  destruct (first_statement (map strip (split nl raw))) as [captured|] eqn:E;
    [|discriminate].
  cbn [option_map] in H.
  assert (Es : s = join nl captured) by congruence. clear H. subst s.
  apply first_statement_spec in E as (l & rest & -> & K & F & I).
  assert (T : Forall (fun x => strip x = x /\ ~ In newline x) (l :: rest)).
  { apply Forall_forall. intros x Hx. apply I, in_map_iff in Hx as (y & <- & Hy).
    split; [apply strip_idem|].
    intros Hin. apply strip_In in Hin.
    now apply (split_char_free newline raw y). }
  unfold nl. rewrite split_join;
    [| discriminate | apply (Forall_impl _ (fun x H => proj2 H) T)].
  rewrite map_fixed by apply (Forall_impl _ (fun x H => proj1 H) T).
  simpl. now rewrite K, until_stop_all.
Qed.

Lemma line_scan_no_fence (raw s : str) :
  contains fence raw = false -> line_scan raw = Some s ->
  contains fence s = false.
Proof.
  intros N H. rewrite line_scan_refines in H. unfold line_scan_spec in H.
  destruct (first_statement (map strip (split nl raw))) as [captured|] eqn:E;
    [|discriminate].
  cbn [option_map] in H.
  assert (Es : s = join nl captured) by congruence. clear H. subst s.
  apply first_statement_spec in E as (_ & _ & _ & _ & _ & I).
  destruct (contains fence (join nl captured)) eqn:C; [exfalso|reflexivity].
  apply (contains_join fence newline) in C;
    [| intros [H|[H|[H|[]]]]; discriminate | discriminate].
  apply Exists_exists in C as (x & Hx & Cx).
  apply I, in_map_iff in Hx as (y & <- & Hy).
  apply contains_strip in Cx.
  apply split_part in Hy as (a & b & ->); [|discriminate].
  apply contains_iff in Cx as (u & v & ->).
  assert (contains fence (a ++ (u ++ fence ++ v) ++ b) = true).
  { apply contains_iff. exists (a ++ u), (v ++ b). now rewrite <- !app_assoc. }
  congruence.
Qed.

(** Without an SQL tag the extractor returns no empty string. *)
Lemma extract_untagged_nonempty (raw s : str) :
  contains sql_tag raw = false ->
  extract_sql_from_response raw = ret (Some s) ->
  s <> [].
Proof.
  intros T H.
  destruct (cut fence raw) as [[pre rest]|] eqn:F.
  - rewrite (extract_generic _ _ _ T F) in H. cbv zeta in H.
    destruct (startswith_any keywords (upper (strip (before fence rest)))) eqn:K.
    + assert (E : s = strip (before fence rest)) by (unfold ret in H; congruence).
      rewrite E. now apply keyword_led_nonempty.
    + apply line_scan_nonempty with (raw := raw). unfold ret in H. congruence.
  - apply cut_None_contains in F. rewrite (extract_plain _ F) in H.
    apply line_scan_nonempty with (raw := raw). unfold ret in H. congruence.
Qed.

End ExtractFacts.

(** ** Further facts about the extractor's results *)

Module ResultFacts.
Import Py PyFacts Pipeline Spec Runs ExtractFacts.

Lemma extract_value (raw : str) :
  extract_sql_from_response raw = ret (extracted raw).
Proof.
  destruct (extract_returns raw) as [v E].
  unfold extracted. now rewrite E.
Qed.

(** A run of the extractor that returns without printing is a run of the
    body of its [try] that returns. *)
Lemma extract_body_value (raw : str) (v : option str) :
  extract_sql_from_response raw = ret v -> extract_body raw = ret v.
Proof.
  unfold extract_sql_from_response, try_except.
  destruct (extract_body raw) as [t [a|e]]; [trivial|].
  cbn. unfold ret. intros [= H _]. now destruct t.
Qed.

Lemma lstrip_rev_strip (s : str) : lstrip (rev (strip s)) = rev (strip s).
Proof.
  unfold strip.
  destruct (lstrip_decompose (rstrip s)) as [ws E].
  apply lstrip_app_fixed with (u := rev ws).
  rewrite <- rev_app_distr, <- E. unfold rstrip.
  rewrite rev_involutive. apply lstrip_idem.
Qed.

(** A text is trimmed when neither end has white space. *)
Lemma strip_fixed_iff (x : str) :
  strip x = x <-> lstrip x = x /\ lstrip (rev x) = rev x.
Proof.
  split.
  - intros H. split.
    + rewrite <- H. unfold strip. apply lstrip_idem.
    + rewrite <- H. apply lstrip_rev_strip.
  - intros [H1 H2]. unfold strip, rstrip. now rewrite H2, rev_involutive.
Qed.

Lemma lstrip_fixed_app (l u : str) :
  l <> [] -> lstrip l = l -> lstrip (l ++ u) = l ++ u.
Proof.
  destruct l as [|c t]; [congruence|]. intros _. simpl.
  destruct (isspace c); [|reflexivity].
  intros H. pose proof (lstrip_length t) as L. rewrite H in L.
  simpl in L. lia.
Qed.

Lemma join_starts (sep l : str) (rest : list str) :
  exists w, join sep (l :: rest) = l ++ w.
Proof.
  destruct rest as [|l' rest].
  - exists []. simpl. now rewrite app_nil_r.
  - now exists (sep ++ join sep (l' :: rest)).
Qed.

Lemma join_ends (sep : str) (ls : list str) :
  ls <> [] -> exists w l, In l ls /\ join sep ls = w ++ l.
Proof.
  induction ls as [|a ls IH]; [congruence|]. intros _.
  destruct ls as [|l' ls].
  - exists [], a. split; [now left | reflexivity].
  - destruct IH as (w & l & I & E); [discriminate|].
    exists (a ++ sep ++ w), l. split; [now right|].
    rewrite join_cons, E. now rewrite <- !app_assoc.
Qed.

(** Joining trimmed, non-empty lines gives a trimmed text. *)
Lemma join_trimmed (sep : str) (ls : list str) :
  ls <> [] -> Forall (fun l => l <> [] /\ strip l = l) ls ->
  strip (join sep ls) = join sep ls.
Proof.
  intros N F. rewrite Forall_forall in F. apply strip_fixed_iff. split.
  - destruct ls as [|l rest]; [congruence|].
    destruct (join_starts sep l rest) as [w ->].
    destruct (F l (or_introl eq_refl)) as [Hl Hs].
    apply lstrip_fixed_app; [assumption|].
    now apply strip_fixed_iff.
  - destruct (join_ends sep ls N) as (w & l & I & ->).
    destruct (F l I) as [Hl Hs].
    rewrite rev_app_distr. apply lstrip_fixed_app.
    + intros E. apply Hl. apply (f_equal (@rev char)) in E.
      now rewrite rev_involutive in E.
    + now apply strip_fixed_iff.
Qed.

Lemma stops_false_nonempty (l : str) : stops l = false -> l <> [].
Proof. intros H ->. discriminate. Qed.

(** What the line-scanning stage returns, line by line. *)
Lemma line_scan_shape (raw s : str) :
  line_scan raw = Some s ->
  exists l rest,
    s = join nl (l :: rest) /\ keyword_led l = true /\
    Forall (fun x => stops x = false) rest /\
    Forall (fun x => strip x = x /\ ~ In newline x /\
                     In x (map strip (split nl raw))) (l :: rest).
Proof.
  rewrite line_scan_refines. unfold line_scan_spec.
  destruct (first_statement (map strip (split nl raw))) as [captured|] eqn:E;
    [|discriminate].
  cbn [option_map]. intros H.
  assert (Es : s = join nl captured) by congruence. clear H.
  apply first_statement_spec in E as (l & rest & -> & K & F & I).
  exists l, rest. repeat split; try assumption.
  apply Forall_forall. intros x Hx. pose proof (I x Hx) as Hm.
  apply in_map_iff in Hm as (y & <- & Hy).
  repeat split; [apply strip_idem | | now apply in_map].
  intros Hin. apply strip_In in Hin.
  now apply (split_char_free newline raw y).
Qed.

Lemma line_scan_trimmed (raw s : str) : line_scan raw = Some s -> strip s = s.
Proof.
  intros H. apply line_scan_shape in H as (l & rest & -> & K & F & T).
  apply join_trimmed; [discriminate|].
  rewrite Forall_forall in *. intros x [E|Hx].
  - subst x. split; [now apply keyword_led_nonempty | apply (T l); now left].
  - split; [now apply stops_false_nonempty, F | apply (T x); now right].
Qed.

Lemma startswith_any_app (ps : list str) (a b : str) :
  startswith_any ps a = true -> startswith_any ps (a ++ b) = true.
Proof.
  unfold startswith_any. rewrite !existsb_exists.
  intros (p & I & H). exists p. split; [assumption|].
  apply startswith_inv in H as [t ->]. rewrite <- app_assoc.
  apply startswith_app.
Qed.

Lemma keyword_led_app (a b : str) :
  keyword_led a = true -> keyword_led (a ++ b) = true.
Proof.
  unfold keyword_led, upper. rewrite flat_map_app. apply startswith_any_app.
Qed.

Lemma line_scan_keyword_led (raw s : str) :
  line_scan raw = Some s -> keyword_led s = true.
Proof.
  intros H. apply line_scan_shape in H as (l & rest & -> & K & _).
  destruct (join_starts nl l rest) as [w ->]. now apply keyword_led_app.
Qed.

(** The text before the first separator holds no separator and starts
    the text. *)
Lemma before_free (sep x : str) :
  sep <> [] -> contains sep (before sep x) = false.
Proof.
  intros Hsep. unfold before.
  destruct (cut sep x) as [[a b]|] eqn:C; [|now apply cut_None_contains].
  apply cut_None_contains.
  pose proof (cut_sound _ _ _ _ C) as E. rewrite E in C.
  apply (cut_short_prefix _ _ _ _ _ C).
  destruct sep; [congruence|]. simpl. lia.
Qed.

Lemma before_prefix (sep x : str) : exists b, x = before sep x ++ b.
Proof.
  unfold before. destruct (cut sep x) as [[a b]|] eqn:C.
  - exists (sep ++ b). now apply cut_sound.
  - exists []. now rewrite app_nil_r.
Qed.

Lemma no_contains_strip (p s : str) :
  contains p s = false -> contains p (strip s) = false.
Proof.
  intros H. destruct (contains p (strip s)) eqn:E; [|reflexivity].
  apply contains_strip in E. congruence.
Qed.

End ResultFacts.


(** ** Fixed points of the extractor *)

Module ShapeFacts.
Import Py PyFacts Pipeline Spec Runs ExtractFacts ResultFacts.

Lemma str_eq_iff (a b : str) : str_eq a b = true <-> a = b.
Proof.
  unfold str_eq. destruct (list_eq_dec N.eq_dec a b); split; congruence.
Qed.

Lemma join_of_split (sep s : str) : sep <> [] -> join sep (split sep s) = s.
Proof.
  intros Hsep.
  apply (split_ind sep (fun s ls => join sep ls = s)); [assumption| |].
  - reflexivity.
  - intros s' a b C IH. apply cut_sound in C. rewrite C.
    rewrite split_cut in * by assumption.
    destruct (cut sep b) as [[a' b']|]; rewrite join_cons; now rewrite IH.
Qed.

Lemma bare_statement_lines (s : str) :
  bare_statement s = true <->
  exists l rest,
    split nl s = l :: rest /\ keyword_led l = true /\
    Forall (fun x => stops x = false) rest /\
    Forall (fun x => strip x = x) (l :: rest).
Proof.
  unfold bare_statement. destruct (split nl s) as [|l rest].
  - split; [discriminate | intros (l & rest & H & _); discriminate].
  - rewrite !andb_true_iff, !forallb_forall. split.
    + intros [[K S] T]. exists l, rest. repeat split; try assumption.
      * apply Forall_forall. intros x Hx. apply S in Hx.
        now destruct (stops x).
      * apply Forall_forall. intros x Hx. now apply str_eq_iff, T.
    + intros (l' & rest' & [= <- <-] & K & S & T).
      rewrite Forall_forall in S, T. repeat split; try assumption.
      * intros x Hx. now rewrite (S x Hx).
      * intros x Hx. now apply str_eq_iff, T.
Qed.

(** A text without a fence is returned by the extractor as it is exactly
    when it has the shape the line scan gives back. *)
Lemma fixed_point_shape (s : str) :
  contains fence s = false ->
  extract_sql_from_response s = ret (Some s) <-> bare_statement s = true.
Proof.
  intros N. rewrite (extract_plain _ N), bare_statement_lines. split.
  - intros H. assert (L : line_scan s = Some s) by (unfold ret in H; congruence).
    destruct (line_scan_shape _ _ L) as (l & rest & E & K & S & T).
    exists l, rest. repeat split; try assumption.
    + rewrite E at 1. unfold nl. apply split_join; [discriminate|].
      apply (Forall_impl _ (fun x H => proj1 (proj2 H)) T).
    + apply (Forall_impl _ (fun x H => proj1 H) T).
  - intros (l & rest & E & K & S & T). f_equal.
    rewrite line_scan_refines. unfold line_scan_spec.
    rewrite E, (map_fixed strip) by assumption.
    cbn [first_statement]. rewrite K, until_stop_all by assumption.
    cbn [option_map]. f_equal.
    rewrite <- E. apply join_of_split. discriminate.
Qed.

End ShapeFacts.


(** ** The extractor against the specification *)

Module ExtractorSpec.
Import Py PyFacts Pipeline Spec Runs ExtractFacts ResultFacts ShapeFacts.

(** C2, as stated, fails: in [```sqlA````sql] the opening tag is followed
    by [A] and then by a fence, yet the result is not [A]: the text is
    first cut at the next [```sql], which starts one character after that
    fence, so the backtick before it stays in the result. *)
Lemma extract_tagged_fence_lengthened :
  let raw := s2l "```sqlA````sql" in
  cut sql_tag raw = Some ([], s2l "A````sql") /\
  cut fence (s2l "A````sql") = Some (s2l "A", s2l "`sql") /\
  extract_sql_from_response raw = ret (Some (s2l "A`")) /\
  extract_sql_from_response raw <> ret (Some (strip (s2l "A"))).
Proof. vm_compute. repeat split; discriminate. Qed.

(** C2, amended: for a text whose first SQL tag is followed by [body], a
    closing fence and [post], where that fence is the first one after the
    tag and [post] starts with neither [`sql] nor [``sql], the extractor
    returns [body] trimmed, whatever stands before the tag and in [post]. *)
Theorem extract_tagged_block (raw pre rest body post : str) :
  cut sql_tag raw = Some (pre, rest) ->
  cut fence rest = Some (body, post) ->
  startswith (s2l "`sql") post = false ->
  startswith (s2l "``sql") post = false ->
  extract_sql_from_response raw = ret (Some (strip body)).
Proof.
  intros T F N1 N2.
  rewrite (extract_tagged _ _ _ T).
  now rewrite (next_fence_before_tag _ _ _ F N1 N2).
Qed.

Lemma extract_tagged_block_witness :
  extract_sql_from_response
    (s2l "Here you go: ```sql SELECT * FROM Flights; ``` Explanation: all flights.") =
  ret (Some (s2l "SELECT * FROM Flights;")).
Proof.
  pose proof (extract_tagged_block
    (s2l "Here you go: ```sql SELECT * FROM Flights; ``` Explanation: all flights.")
    (s2l "Here you go: ")
    (s2l " SELECT * FROM Flights; ``` Explanation: all flights.")
    (s2l " SELECT * FROM Flights; ")
    (s2l " Explanation: all flights.")) as H.
  vm_compute in H |- *. apply H; reflexivity.
Defined.

(** C3: for a text with no SQL tag and a fence, where [block] is the text
    between the first fence and the next one (or the end of the text):
    when [block], trimmed, is led case-insensitively by one of the six
    keywords the extractor returns it, and otherwise the extractor
    returns what the line-scanning stage finds in the whole text. *)
Theorem extract_generic_block (raw pre rest : str) :
  contains sql_tag raw = false ->
  cut fence raw = Some (pre, rest) ->
  let block := strip (before fence rest) in
  (keyword_led block = true ->
   extract_sql_from_response raw = ret (Some block)) /\
  (keyword_led block = false ->
   extract_sql_from_response raw = ret (line_scan raw)).
Proof.
  intros T F block.
  rewrite (extract_generic _ _ _ T F). fold block. unfold keyword_led.
  split; intros ->; reflexivity.
Qed.

Lemma extract_generic_block_witness :
  extract_sql_from_response (s2l "Try ``` select 1 ``` now") =
    ret (Some (s2l "select 1")) /\
  extract_sql_from_response
    (s2l ("Run ``` it ``` as" ++ lf ++ "DELETE FROM Bookings")) =
    ret (line_scan (s2l ("Run ``` it ``` as" ++ lf ++ "DELETE FROM Bookings"))).
Proof.
  pose proof (extract_generic_block (s2l "Try ``` select 1 ``` now")
                (s2l "Try ") (s2l " select 1 ``` now")) as H1.
  pose proof (extract_generic_block
                (s2l ("Run ``` it ``` as" ++ lf ++ "DELETE FROM Bookings"))
                (s2l "Run ")
                (s2l (" it ``` as" ++ lf ++ "DELETE FROM Bookings"))) as H2.
  vm_compute in H1, H2 |- *.
  split.
  - apply (proj1 (H1 eq_refl eq_refl)). reflexivity.
  - apply (proj2 (H2 eq_refl eq_refl)). reflexivity.
Defined.

(** C10: no closing fence is needed.  When no fence follows the first SQL
    tag, the extractor returns everything after the tag, trimmed; when the
    text has no SQL tag and a single fence, and what follows it, trimmed,
    is led by a statement keyword, the extractor returns all of that. *)
Theorem extract_unclosed_fence (raw pre rest : str) :
  contains fence rest = false ->
  (cut sql_tag raw = Some (pre, rest) ->
   extract_sql_from_response raw = ret (Some (strip rest))) /\
  (contains sql_tag raw = false ->
   cut fence raw = Some (pre, rest) ->
   keyword_led (strip rest) = true ->
   extract_sql_from_response raw = ret (Some (strip rest))).
Proof.
  intros N. split.
  - intros T. rewrite (extract_tagged _ _ _ T).
    rewrite (before_no_occurrence sql_tag rest) by now apply no_fence_no_tag.
    now rewrite before_no_occurrence.
  - intros T F K. rewrite (extract_generic _ _ _ T F).
    rewrite before_no_occurrence by assumption.
    cbv zeta. unfold keyword_led in K. now rewrite K.
Qed.

Lemma extract_unclosed_fence_witness :
  extract_sql_from_response (s2l "Sure: ```sql SELECT 1 FROM Flights ") =
    ret (Some (s2l "SELECT 1 FROM Flights")) /\
  extract_sql_from_response (s2l "Sure: ``` SELECT 1 FROM Flights ") =
    ret (Some (s2l "SELECT 1 FROM Flights")).
Proof.
  pose proof (extract_unclosed_fence
                (s2l "Sure: ```sql SELECT 1 FROM Flights ")
                (s2l "Sure: ") (s2l " SELECT 1 FROM Flights ")) as H1.
  pose proof (extract_unclosed_fence
                (s2l "Sure: ``` SELECT 1 FROM Flights ")
                (s2l "Sure: ") (s2l " SELECT 1 FROM Flights ")) as H2.
  vm_compute in H1, H2 |- *.
  split.
  - apply (proj1 (H1 eq_refl)). reflexivity.
  - apply (proj2 (H2 eq_refl)); reflexivity.
Defined.

(** C4: the line-scanning stage returns what the specification describes.
    Over the trimmed lines of the text, capture starts at the first line
    whose upper-cased form is led by one of the six keywords and goes on
    until the first blank line or the first line led by [Explanation] or
    [This query]; the captured lines are joined with line feeds; with no
    keyword-led line the result is absent.  A text without a fence reaches
    this stage and gets its result. *)
Theorem line_scan_captures_first_statement (raw : str) :
  line_scan raw =
    option_map (join nl) (first_statement (map strip (split nl raw))) /\
  (contains fence raw = false ->
   extract_sql_from_response raw = ret (line_scan raw)).
Proof.
  split; [apply line_scan_refines | apply extract_plain].
Qed.

Lemma line_scan_captures_first_statement_witness :
  let raw := s2l ("Here is the query:" ++ lf ++ "  select *" ++ lf ++
                  "FROM Flights  " ++ lf ++ "   " ++ lf ++ "WITH more") in
  extract_sql_from_response raw =
    ret (Some (s2l ("select *" ++ lf ++ "FROM Flights"))).
Proof.
  pose proof (proj2 (line_scan_captures_first_statement
    (s2l ("Here is the query:" ++ lf ++ "  select *" ++ lf ++
          "FROM Flights  " ++ lf ++ "   " ++ lf ++ "WITH more")))) as H.
  vm_compute in H |- *. apply H. reflexivity.
Defined.

(** C8 fails for a tagged block: where the text between the first SQL
    tag and the end of its block is empty or white space, the extractor
    returns the empty string, not absence.  The other two stages return
    absence or a keyword-led string ([extract_untagged_nonempty]). *)
Theorem extract_blank_tagged_block (raw pre rest : str) :
  cut sql_tag raw = Some (pre, rest) ->
  strip (before fence (before sql_tag rest)) = [] ->
  extract_sql_from_response raw = ret (Some []).
Proof.
  intros T E. rewrite (extract_tagged _ _ _ T). now rewrite E.
Qed.

Lemma extract_blank_tagged_block_witness :
  extract_sql_from_response (s2l "```sql```") = ret (Some []) /\
  extract_sql_from_response
    (s2l ("Here: ```sql" ++ lf ++ "  " ++ lf ++ "``` done")) = ret (Some []).
Proof.
  pose proof (extract_blank_tagged_block (s2l "```sql```") [] (s2l "```")) as H1.
  pose proof (extract_blank_tagged_block
                (s2l ("Here: ```sql" ++ lf ++ "  " ++ lf ++ "``` done"))
                (s2l "Here: ")
                (s2l (lf ++ "  " ++ lf ++ "``` done"))) as H2.
  vm_compute in H1, H2 |- *.
  split; [apply H1 | apply H2]; reflexivity.
Defined.

(** C9, as stated, fails: the SQL of a tagged block may hold a blank
    line, at which a second extraction stops, or start with no keyword,
    in which case a second extraction finds nothing. *)
Lemma extract_not_idempotent :
  let raw := s2l ("```sql" ++ lf ++ "SELECT *" ++ lf ++ lf ++
                  "FROM Flights" ++ lf ++ "```") in
  let sql := s2l ("SELECT *" ++ lf ++ lf ++ "FROM Flights") in
  extract_sql_from_response raw = ret (Some sql) /\
  extract_sql_from_response sql = ret (Some (s2l "SELECT *")) /\
  extract_sql_from_response sql <> ret (Some sql) /\
  extract_sql_from_response (s2l "```sql PRAGMA x ```") =
    ret (Some (s2l "PRAGMA x")) /\
  extract_sql_from_response (s2l "PRAGMA x") = ret None.
Proof. vm_compute. repeat split; discriminate. Qed.

(** C9, amended: a text without a fence, and so every such text the
    extractor has returned, from whichever stage, is returned unchanged by
    a further extraction exactly when it has the shape the line scan gives
    back: its first line is led by one of the six keywords, no later line
    is blank or led by a marker, and no line has white space at its
    ends. *)
Theorem extract_fixed_point (s : str) :
  contains fence s = false ->
  extract_sql_from_response s = ret (Some s) <-> bare_statement s = true.
Proof. exact (fixed_point_shape s). Qed.

Lemma extract_fixed_point_witness :
  let raw := s2l ("```sql" ++ lf ++
                  "SELECT * FROM Flights WHERE source='JFK' AND departure_time > '18:00';" ++
                  lf ++ "``` Explanation: flights leaving JFK after 6pm.") in
  let sql := s2l "SELECT * FROM Flights WHERE source='JFK' AND departure_time > '18:00';" in
  extract_sql_from_response raw = ret (Some sql) /\
  extract_sql_from_response sql = ret (Some sql).
Proof.
  pose proof (extract_fixed_point
    (s2l "SELECT * FROM Flights WHERE source='JFK' AND departure_time > '18:00';")) as H.
  vm_compute in H |- *.
  split; [reflexivity | apply H; reflexivity].
Defined.

(** What the line-scanning stage returns for a text without a fence has
    that shape, and so is returned unchanged by a further extraction. *)
Corollary extract_idempotent_without_fence (raw s : str) :
  contains fence raw = false ->
  extract_sql_from_response raw = ret (Some s) ->
  extract_sql_from_response s = ret (Some s).
Proof.
  intros N H. rewrite (extract_plain _ N) in H.
  assert (L : line_scan raw = Some s) by (unfold ret in H; congruence).
  apply (line_scan_stable raw); [assumption|].
  now apply (line_scan_no_fence raw).
Qed.

End ExtractorSpec.


(** ** Facts about the stages *)

Module StageFacts.
Import Py PyFacts Pipeline Spec Runs ExtractFacts ResultFacts.

Lemma str_eq_true (a b : str) : str_eq a b = true <-> a = b.
Proof.
  unfold str_eq. destruct (list_eq_dec N.eq_dec a b); split; congruence.
Qed.

(** *** Upper case and [VALID] *)






(** *** The stages, run *)

Section Run.
Context {row : Type} (str_rows : list row -> str) (w : world row).

Lemma validate_prompt_run (prompt : str) :
  validate_prompt w prompt =
  ([EvValidationCall prompt],
   match validation_agent_run w prompt with
   | Ok r => Ok (str_eq (upper (strip (content_of r))) (s2l "VALID"))
   | Raise e => Raise e
   end).
Proof.
  unfold validate_prompt, call, bind, ret.
  now destruct (validation_agent_run w prompt).
Qed.

(** [generate_sql] makes one call and returns, whatever the call does. *)
Lemma generate_sql_run (prompt : str) :
  exists sql fallback,
    generate_sql w prompt =
    ([EvQueryCall (prompt ++ nl ++ nl ++ s2l "Schema:" ++ nl ++ schema_info)],
     Ok (sql, fallback)).
Proof.
  unfold generate_sql, call. cbv zeta.
  destruct (query_agent_run w _) as [r|e].
  - destruct (extract_returns (content_of r)) as [v E].
    cbn [bind]. rewrite E. eexists _, _. reflexivity.
  - eexists _, _. reflexivity.
Qed.

(** [execute_query] makes one call and returns, whatever the call does. *)
Lemma execute_query_run (sql : str) :
  execute_query w sql =
  ([EvExecute sql],
   Ok match session_execute w sql with
      | Ok [] => Text no_rows
      | Ok (x :: xs) => Rows (x :: xs)
      | Raise e => Text (execution_error ++ str_of_exn e)
      end).
Proof.
  unfold execute_query, call.
  now destruct (session_execute w sql) as [[|x xs]|e].
Qed.

(** [summarize_result] makes one call and returns, whatever the call
    does. *)
Lemma summarize_result_run (prompt : str) (results : query_result row) :
  summarize_result str_rows w prompt results =
  ([EvSummarizerCall (summary_prompt str_rows prompt results)],
   Ok match summarizer_agent_run w (summary_prompt str_rows prompt results) with
      | Ok r => strip (content_of r)
      | Raise e => s2l "❌ Summarization error: " ++ str_of_exn e
      end).
Proof.
  unfold summarize_result, call. cbv zeta.
  now destruct (summarizer_agent_run w _).
Qed.

End Run.

End StageFacts.

(** ** The stages and the orchestrator against the specification *)

Module PipelineSpec.
Import Py PyFacts Pipeline Spec ExtractFacts StageFacts.




(** The answers of section 8 of the specification, and [INVALID]. *)
Lemma validate_examples :
  let verdict answer :=
    snd (validate_prompt
           (scripted (Ok (WithContent answer)) (Raise (Exception []))
                     (Raise (Exception [])) (Ok []))
           (s2l "List all flights")) in
  verdict (s2l "VALID") = Ok true /\
  verdict (s2l (" valid " ++ lf)) = Ok true /\
  verdict (s2l "Valid") = Ok true /\
  verdict (s2l "maybe") = Ok false /\
  verdict (s2l "INVALID") = Ok false.
Proof. vm_compute. repeat split. Qed.

(** C6: [execute_query] never raises; it returns the rows when the
    datastore gives at least one, the no-rows marker when it gives none
    and an error description holding the text of the failure when the
    call fails, and what it returns has exactly one of these three
    shapes. *)
Theorem execute_query_outcomes {row} (w : world row) (sql : str) :
  exists results,
    execute_query w sql = ([EvExecute sql], Ok results) /\
    match session_execute w sql with
    | Ok [] => results = Text no_rows
    | Ok (x :: xs) => results = Rows (x :: xs)
    | Raise e => results = Text (execution_error ++ str_of_exn e)
    end /\
    exactly_one (is_rows results) (is_no_rows_marker results)
                (is_error_description results).
Proof.
  rewrite execute_query_run. eexists. split; [reflexivity|].
  unfold exactly_one, is_rows, is_no_rows_marker, is_error_description.
  destruct (session_execute w sql) as [[|x xs]|e]; (split; [reflexivity|]).
  - right; left. repeat split.
    + intros (x & xs & H). discriminate.
    + intros (msg & H). discriminate.
  - left. repeat split.
    + now exists x, xs.
    + discriminate.
    + intros (msg & H). discriminate.
  - right; right. repeat split.
    + intros (x & xs & H). discriminate.
    + discriminate.
    + now exists (str_of_exn e).
Qed.

(** *** The orchestrator *)

Ltac run_stage E := rewrite E; cbn [bind ret emit print negb app].

(** The trace of [main] when SQL was recovered. *)
Lemma main_run_executing {row} (str_rows : list row -> str) (w : world row)
    (prompt : str) (r : response) (c : char) (s : str) (fallback : option str) :
  validation_agent_run w prompt = Ok r ->
  str_eq (upper (strip (content_of r))) (s2l "VALID") = true ->
  generate_sql w prompt =
    ([EvQueryCall (prompt ++ nl ++ nl ++ s2l "Schema:" ++ nl ++ schema_info)],
     Ok (Some (c :: s), fallback)) ->
  exists results summary,
    execute_query w (c :: s) = ([EvExecute (c :: s)], Ok results) /\
    main str_rows w prompt =
    ([EvValidationCall prompt;
      EvQueryCall (prompt ++ nl ++ nl ++ s2l "Schema:" ++ nl ++ schema_info);
      EvPrint (nl ++ s2l "✅ Generated SQL:" ++ nl ++ c :: s);
      EvExecute (c :: s);
      EvPrint (nl ++ s2l "📊 Query Results:" ++ nl ++ str_of_result str_rows results);
      EvSummarizerCall (summary_prompt str_rows prompt results);
      EvPrint (nl ++ s2l "📝 Summary:" ++ nl ++ summary);
      EvClose], Ok tt).
Proof.
  intros V T G. eexists _, _. split; [apply execute_query_run|].
  unfold main. rewrite validate_prompt_run, V, T. cbn [bind negb].
  run_stage G. run_stage (execute_query_run w (c :: s)).
  run_stage (summarize_result_run str_rows w prompt
    match session_execute w (c :: s) with
    | Ok [] => Text no_rows
    | Ok (x :: xs) => Rows (x :: xs)
    | Raise e => Text (execution_error ++ str_of_exn e)
    end).
  reflexivity.
Qed.

(** The traces of [main] that execute nothing. *)
Lemma main_run_other {row} (str_rows : list row -> str) (w : world row)
    (prompt : str) :
  (exists t out, main str_rows w prompt = (t, out) /\
     forall sql, ~ In (EvExecute sql) t) \/
  (exists r c s fallback,
     validation_agent_run w prompt = Ok r /\
     str_eq (upper (strip (content_of r))) (s2l "VALID") = true /\
     generate_sql w prompt =
       ([EvQueryCall (prompt ++ nl ++ nl ++ s2l "Schema:" ++ nl ++ schema_info)],
        Ok (Some (c :: s), fallback))).
Proof.
  destruct (validation_agent_run w prompt) as [r|e] eqn:V.
  - destruct (str_eq (upper (strip (content_of r))) (s2l "VALID")) eqn:T.
    + destruct (generate_sql_run w prompt) as (sql & fallback & G).
      destruct sql as [[|c s]|].
      * left. unfold main. rewrite validate_prompt_run, V, T. cbn [bind negb].
        run_stage G. eexists _, _. split; [reflexivity|].
        intros sql [H|[H|[H|[H|[H|[]]]]]]; discriminate.
      * right. now exists r, c, s, fallback.
      * left. unfold main. rewrite validate_prompt_run, V, T. cbn [bind negb].
        run_stage G. eexists _, _. split; [reflexivity|].
        intros sql [H|[H|[H|[H|[H|[]]]]]]; discriminate.
    + left. unfold main. rewrite validate_prompt_run, V, T. cbn [bind negb print emit].
      eexists _, _. split; [reflexivity|].
      intros sql [H|[H|[H|[]]]]; discriminate.
  - left. unfold main. rewrite validate_prompt_run, V. cbn [bind].
    eexists _, _. split; [reflexivity|].
    intros sql [H|[]]; discriminate.
Qed.

(** C7: in every run of [main], an execution of SQL is followed by the
    printing of its result and then by the call of the summarizer on that
    result, whatever the execution gave, an error description included;
    no run goes from the execution to the end without it. *)
Theorem summarize_follows_execute {row} (str_rows : list row -> str)
    (w : world row) (prompt sql : str) (earlier later : list event) :
  fst (main str_rows w prompt) = earlier ++ EvExecute sql :: later ->
  exists results rest,
    execute_query w sql = ([EvExecute sql], Ok results) /\
    later =
      EvPrint (nl ++ s2l "📊 Query Results:" ++ nl ++ str_of_result str_rows results)
      :: EvSummarizerCall (summary_prompt str_rows prompt results) :: rest.
Proof.
  intros H.
  destruct (main_run_other str_rows w prompt)
    as [(t & out & E & N) | (r & c & s & fallback & V & T & G)].
  - rewrite E in H. simpl in H. exfalso. apply (N sql).
    rewrite H. apply in_or_app. right. now left.
  - destruct (main_run_executing str_rows w prompt r c s fallback V T G)
      as (results & summary & X & E).
    rewrite E in H. cbn [fst] in H.
    do 3 (destruct earlier as [|? earlier]; [discriminate H | injection H as _ H]).
    destruct earlier as [|? earlier].
    + injection H as <- <-. exists results. eexists. split; [assumption|reflexivity].
    + injection H as _ H.
      do 4 (destruct earlier as [|? earlier]; [discriminate H | injection H as _ H]).
      destruct earlier; discriminate H.
Qed.

Lemma summarize_follows_execute_witness :
  let w := scripted (Ok (WithContent (s2l "VALID")))
             (Ok (WithContent (s2l "```sql SELECT nope FROM Flights ```")))
             (Ok (WithContent (s2l "The query failed.")))
             (Raise (Exception (s2l "no such column: nope"))) in
  let prompt := s2l "List all flights" in
  let sql := s2l "SELECT nope FROM Flights" in
  exists results rest,
    execute_query w sql = ([EvExecute sql], Ok results) /\
    [EvPrint (nl ++ s2l "📊 Query Results:" ++ nl ++
              s2l "❌ SQL execution error: no such column: nope");
     EvSummarizerCall
       (summary_prompt show_rows prompt
          (Text (s2l "❌ SQL execution error: no such column: nope")));
     EvPrint (nl ++ s2l "📝 Summary:" ++ nl ++ s2l "The query failed.");
     EvClose] =
      EvPrint (nl ++ s2l "📊 Query Results:" ++ nl ++ str_of_result show_rows results)
      :: EvSummarizerCall (summary_prompt show_rows prompt results) :: rest.
Proof.
  intros w prompt sql.
  pose proof (summarize_follows_execute show_rows w prompt sql
           [EvValidationCall prompt;
            EvQueryCall (prompt ++ nl ++ nl ++ s2l "Schema:" ++ nl ++ schema_info);
            EvPrint (nl ++ s2l "✅ Generated SQL:" ++ nl ++ sql)]
           [EvPrint (nl ++ s2l "📊 Query Results:" ++ nl ++
                     s2l "❌ SQL execution error: no such column: nope");
            EvSummarizerCall
              (summary_prompt show_rows prompt
                 (Text (s2l "❌ SQL execution error: no such column: nope")));
            EvPrint (nl ++ s2l "📝 Summary:" ++ nl ++ s2l "The query failed.");
            EvClose]) as H.
  vm_compute in H |- *. apply H; first [reflexivity | discriminate | tauto].
Defined.

(** C1 fails for the validation stage: [validate_prompt] has no handler,
    so a failure of the validation call ends the run with the exception,
    before anything is printed and before the session is closed. *)
Theorem validation_failure_escapes {row} (str_rows : list row -> str)
    (w : world row) (prompt : str) (e : exn) :
  validation_agent_run w prompt = Raise e ->
  validate_prompt w prompt = ([EvValidationCall prompt], Raise e) /\
  main str_rows w prompt = ([EvValidationCall prompt], Raise e).
Proof.
  intros V. unfold main. rewrite validate_prompt_run, V. now split.
Qed.

Lemma validation_failure_escapes_witness :
  let w := scripted (Raise (Exception (s2l "Connection error.")))
             (Ok (WithContent (s2l "```sql SELECT 1 ```")))
             (Ok (WithContent (s2l "One."))) (Ok [s2l "(1,)"]) in
  let prompt := s2l "List all flights" in
  validate_prompt w prompt =
    ([EvValidationCall prompt], Raise (Exception (s2l "Connection error."))) /\
  main show_rows w prompt =
    ([EvValidationCall prompt], Raise (Exception (s2l "Connection error."))).
Proof.
  intros w prompt.
  pose proof (validation_failure_escapes show_rows w prompt
                (Exception (s2l "Connection error."))) as H.
  vm_compute in H |- *. apply H; first [reflexivity | discriminate | tauto].
Defined.

(** The other stages do what C1 says: a failure of the generation call or
    of the summarization call becomes a string that the stage returns. *)
Lemma generation_failure_is_data {row} (w : world row) (prompt : str) (e : exn) :
  query_agent_run w (prompt ++ nl ++ nl ++ s2l "Schema:" ++ nl ++ schema_info)
    = Raise e ->
  snd (generate_sql w prompt) =
  Ok (None, Some (s2l "SQL generation failed: " ++ str_of_exn e)).
Proof. intros Q. unfold generate_sql, call. cbv zeta. now rewrite Q. Qed.

Lemma summarization_failure_is_data {row} (str_rows : list row -> str)
    (w : world row) (prompt : str) (results : query_result row) (e : exn) :
  summarizer_agent_run w (summary_prompt str_rows prompt results) = Raise e ->
  snd (summarize_result str_rows w prompt results) =
  Ok (s2l "❌ Summarization error: " ++ str_of_exn e).
Proof. intros S. now rewrite summarize_result_run, S. Qed.

(** Once the validation agent has answered, [main] runs to its end and
    closes the session. *)
Lemma main_completes {row} (str_rows : list row -> str) (w : world row)
    (prompt : str) (r : response) :
  validation_agent_run w prompt = Ok r ->
  exists t, main str_rows w prompt = (t ++ [EvClose], Ok tt).
Proof.
  intros V.
  destruct (str_eq (upper (strip (content_of r))) (s2l "VALID")) eqn:T.
  - destruct (generate_sql_run w prompt) as (sql & fallback & G).
    destruct sql as [[|c s]|].
    + unfold main. rewrite validate_prompt_run, V, T. cbn [bind negb].
      run_stage G. eexists [_; _; _; _]. reflexivity.
    + destruct (main_run_executing str_rows w prompt r c s fallback V T G)
        as (results & summary & _ & E).
      rewrite E. eexists [_; _; _; _; _; _; _]. reflexivity.
    + unfold main. rewrite validate_prompt_run, V, T. cbn [bind negb].
      run_stage G. eexists [_; _; _; _]. reflexivity.
  - unfold main. rewrite validate_prompt_run, V, T. cbn [bind negb print emit].
    eexists [_; _]. reflexivity.
Qed.

End PipelineSpec.

(** ** Further properties of the extractor *)

Module ExtractorProps.
Import Py PyFacts Pipeline Spec Runs ExtractFacts ResultFacts.

(** X1: the extractor never raises and never prints: for every text the
    body of its [try] returns, so its handler is never entered. *)
Theorem extract_handler_unreachable (raw : str) :
  exists v,
    extract_body raw = ret v /\ extract_sql_from_response raw = ret v.
Proof.
  exists (extracted raw). split; [apply extract_body_value|]; apply extract_value.
Qed.

(** X2: whatever the extractor returns is trimmed: it has no white space
    at either end. *)
Theorem extract_result_trimmed (raw s : str) :
  extract_sql_from_response raw = ret (Some s) -> strip s = s.
Proof.
  intros H. destruct (cut sql_tag raw) as [[pre rest]|] eqn:T.
  - rewrite (extract_tagged _ _ _ T) in H.
    assert (E : s = strip (before fence (before sql_tag rest)))
      by (unfold ret in H; congruence).
    rewrite E. apply strip_idem.
  - apply cut_None_contains in T.
    destruct (cut fence raw) as [[pre rest]|] eqn:F.
    + rewrite (extract_generic _ _ _ T F) in H. cbv zeta in H.
      destruct (startswith_any keywords (upper (strip (before fence rest)))).
      * assert (E : s = strip (before fence rest))
          by (unfold ret in H; congruence).
        rewrite E. apply strip_idem.
      * apply line_scan_trimmed with (raw := raw). unfold ret in H. congruence.
    + apply cut_None_contains in F. rewrite (extract_plain _ F) in H.
      apply line_scan_trimmed with (raw := raw). unfold ret in H. congruence.
Qed.

Lemma extract_result_trimmed_witness :
  strip (s2l ("select *" ++ lf ++ "FROM Flights")) =
  s2l ("select *" ++ lf ++ "FROM Flights").
Proof.
  pose proof (extract_result_trimmed
           (s2l ("Here is the query:" ++ lf ++ "  select *  " ++ lf ++
                 "  FROM Flights  " ++ lf ++ lf ++ "Done."))
           (s2l ("select *" ++ lf ++ "FROM Flights"))) as H.
  vm_compute in H |- *. apply H; first [reflexivity | discriminate | tauto].
Defined.

(** X3: from a text without an SQL tag the extractor returns only text
    that starts, case-insensitively, with one of the six keywords. *)
Theorem extract_untagged_keyword_led (raw s : str) :
  contains sql_tag raw = false ->
  extract_sql_from_response raw = ret (Some s) ->
  keyword_led s = true.
Proof.
  intros T H. destruct (cut fence raw) as [[pre rest]|] eqn:F.
  - rewrite (extract_generic _ _ _ T F) in H. cbv zeta in H.
    destruct (startswith_any keywords (upper (strip (before fence rest)))) eqn:K.
    + assert (E : s = strip (before fence rest))
        by (unfold ret in H; congruence).
      rewrite E. exact K.
    + apply line_scan_keyword_led with (raw := raw). unfold ret in H. congruence.
  - apply cut_None_contains in F. rewrite (extract_plain _ F) in H.
    apply line_scan_keyword_led with (raw := raw). unfold ret in H. congruence.
Qed.

Lemma extract_untagged_keyword_led_witness :
  keyword_led (s2l "delete from Bookings") = true.
Proof.
  pose proof (extract_untagged_keyword_led
           (s2l ("Run this:" ++ lf ++ "  delete from Bookings" ++ lf ++
                 lf ++ "It removes every booking."))
           (s2l "delete from Bookings")) as H.
  vm_compute in H |- *. apply H; first [reflexivity | discriminate | tauto].
Defined.

(** X4: a text with an SQL tag always gives a result, with no check of a
    keyword: the result is a part of the text, and it holds no fence. *)
Theorem extract_tagged_result (raw : str) :
  contains sql_tag raw = true ->
  exists s a b,
    extract_sql_from_response raw = ret (Some s) /\
    raw = a ++ s ++ b /\
    contains fence s = false.
Proof.
  intros H. destruct (cut sql_tag raw) as [[pre rest]|] eqn:T.
  - exists (strip (before fence (before sql_tag rest))).
    destruct (before_prefix sql_tag rest) as [u Eu].
    destruct (before_prefix fence (before sql_tag rest)) as [v Ev].
    destruct (strip_decompose (before fence (before sql_tag rest)))
      as (x & y & Es).
    exists (pre ++ sql_tag ++ x), (y ++ v ++ u).
    split; [now apply extract_tagged with (pre := pre)|]. split.
    + apply cut_sound in T. rewrite T. rewrite Eu at 1. rewrite Ev at 1.
      rewrite Es at 1. now rewrite <- !app_assoc.
    + apply no_contains_strip, before_free. discriminate.
  - apply cut_None_contains in T. congruence.
Qed.

Lemma extract_tagged_result_witness :
  exists s a b,
    extract_sql_from_response (s2l "Use ```sql PRAGMA table_info(Flights) ``` ok") =
      ret (Some s) /\
    s2l "Use ```sql PRAGMA table_info(Flights) ``` ok" = a ++ s ++ b /\
    contains fence s = false.
Proof.
  pose proof (extract_tagged_result
           (s2l "Use ```sql PRAGMA table_info(Flights) ``` ok")) as H.
  vm_compute in H |- *. apply H; first [reflexivity | discriminate | tauto].
Defined.

(** X5: a result of the line-scanning stage, split into lines again,
    consists of trimmed lines of the text; the first is led by a keyword
    and none of the others is blank or led by a marker. *)
Theorem line_scan_result_lines (raw s : str) :
  line_scan raw = Some s ->
  exists l rest,
    split nl s = l :: rest /\
    keyword_led l = true /\
    Forall (fun x => stops x = false) rest /\
    Forall (fun x => In x (map strip (split nl raw))) (l :: rest).
Proof.
  intros H. apply line_scan_shape in H as (l & rest & -> & K & F & T).
  exists l, rest. repeat split; try assumption.
  - unfold nl. apply split_join; [discriminate|].
    apply (Forall_impl _ (fun x H => proj1 (proj2 H)) T).
  - apply (Forall_impl _ (fun x H => proj2 (proj2 H)) T).
Qed.

Lemma line_scan_result_lines_witness :
  let raw := s2l ("Sure." ++ lf ++ "  WITH t AS (SELECT 1)  " ++ lf ++
                  " SELECT * FROM t " ++ lf ++ "This query selects.") in
  exists l rest,
    split nl (s2l ("WITH t AS (SELECT 1)" ++ lf ++ "SELECT * FROM t")) = l :: rest /\
    keyword_led l = true /\
    Forall (fun x => stops x = false) rest /\
    Forall (fun x => In x (map strip (split nl raw))) (l :: rest).
Proof.
  intros raw.
  pose proof (line_scan_result_lines raw
                (s2l ("WITH t AS (SELECT 1)" ++ lf ++ "SELECT * FROM t"))) as H.
  vm_compute in H |- *. apply H; first [reflexivity | discriminate | tauto].
Defined.

(** X6: joining the pieces of a split with the separator gives the text
    back. *)
Theorem join_split (sep s : str) :
  sep <> [] -> join sep (split sep s) = s.
Proof.
  intros Hsep.
  apply (split_ind sep (fun s ls => join sep ls = s)); [assumption| |].
  - reflexivity.
  - intros s' a b C IH. apply cut_sound in C. rewrite C.
    rewrite split_cut in * by assumption.
    destruct (cut sep b) as [[a' b']|]; rewrite join_cons; now rewrite IH.
Qed.

Lemma join_split_witness :
  join nl (split nl (s2l ("a" ++ lf ++ lf ++ "b" ++ lf))) =
  s2l ("a" ++ lf ++ lf ++ "b" ++ lf).
Proof.
  pose proof (join_split nl (s2l ("a" ++ lf ++ lf ++ "b" ++ lf))) as H.
  vm_compute in H |- *. apply H. discriminate.
Defined.

End ExtractorProps.

(** ** Runs of the orchestrator *)

Module RunFacts.
Import Py PyFacts Pipeline Spec Runs ExtractFacts StageFacts ResultFacts.

Section Run.
Context {row : Type} (str_rows : list row -> str) (w : world row).

(** [generate_sql], run. *)
Lemma generate_sql_eq (prompt : str) :
  generate_sql w prompt =
  ([EvQueryCall (query_prompt prompt)],
   Ok match query_agent_run w (query_prompt prompt) with
      | Ok r =>
          (extracted (content_of r),
           if negb (truthy (extracted (content_of r)))
           then Some (content_of r) else None)
      | Raise e => (None, Some (s2l "SQL generation failed: " ++ str_of_exn e))
      end).
Proof.
  unfold generate_sql, call, query_prompt. cbv zeta.
  destruct (query_agent_run w _) as [r|e]; [|reflexivity].
  cbn [bind]. now rewrite extract_value.
Qed.

(** [main], run: its trace and its end, by what the outside answers. *)
Lemma main_run (prompt : str) :
  main str_rows w prompt =
  match validation_agent_run w prompt with
  | Raise e => ([EvValidationCall prompt], Raise e)
  | Ok rv =>
      if str_eq (upper (strip (content_of rv))) (s2l "VALID") then
        match query_agent_run w (query_prompt prompt) with
        | Raise e =>
            ([EvValidationCall prompt; EvQueryCall (query_prompt prompt);
              EvPrint extraction_notice;
              EvPrint (s2l "SQL generation failed: " ++ str_of_exn e);
              EvClose], Ok tt)
        | Ok r =>
            match extracted (content_of r) with
            | Some (c :: s) =>
                let results :=
                  match session_execute w (c :: s) with
                  | Ok [] => Text no_rows
                  | Ok (x :: xs) => Rows (x :: xs)
                  | Raise e => Text (execution_error ++ str_of_exn e)
                  end in
                ([EvValidationCall prompt; EvQueryCall (query_prompt prompt);
                  EvPrint (nl ++ s2l "✅ Generated SQL:" ++ nl ++ c :: s);
                  EvExecute (c :: s);
                  EvPrint (nl ++ s2l "📊 Query Results:" ++ nl ++
                           str_of_result str_rows results);
                  EvSummarizerCall (summary_prompt str_rows prompt results);
                  EvPrint (nl ++ s2l "📝 Summary:" ++ nl ++
                           match summarizer_agent_run w
                                   (summary_prompt str_rows prompt results) with
                           | Ok r' => strip (content_of r')
                           | Raise e => s2l "❌ Summarization error: " ++ str_of_exn e
                           end);
                  EvClose], Ok tt)
            | _ =>
                ([EvValidationCall prompt; EvQueryCall (query_prompt prompt);
                  EvPrint extraction_notice;
                  EvPrint (match content_of r with
                           | [] => s2l "No response."
                           | text => text
                           end);
                  EvClose], Ok tt)
            end
        end
      else
        ([EvValidationCall prompt; EvPrint irrelevant_notice; EvClose], Ok tt)
  end.
Proof.
  unfold main. rewrite validate_prompt_run.
  destruct (validation_agent_run w prompt) as [rv|e]; [|reflexivity].
  destruct (str_eq (upper (strip (content_of rv))) (s2l "VALID")).
  - cbn [bind negb]. rewrite generate_sql_eq.
    destruct (query_agent_run w (query_prompt prompt)) as [r|e].
    + destruct (extracted (content_of r)) as [[|c s]|].
      * cbn [bind truthy negb print emit app or_no_response].
        unfold extraction_notice. now destruct (content_of r).
      * cbn [bind truthy negb print emit app].
        rewrite execute_query_run. cbn [bind print emit app].
        rewrite summarize_result_run. reflexivity.
      * cbn [bind truthy negb print emit app or_no_response].
        unfold extraction_notice. now destruct (content_of r).
    + vm_compute. reflexivity.
  - cbn [bind negb print emit app]. unfold irrelevant_notice. reflexivity.
Qed.

End Run.

End RunFacts.

(** ** Further properties of the stages and the orchestrator *)

Module PipelineProps.
Import Py PyFacts Pipeline Spec Runs ExtractFacts StageFacts ResultFacts RunFacts.

(** X7: [generate_sql] makes one call and never raises.  It returns no
    fallback exactly when it returns a non-empty SQL string; otherwise the
    fallback is the agent's answer as it came, or, when the call failed,
    the text of the failure after [SQL generation failed: ]. *)
Theorem generate_sql_contract {row} (w : world row) (prompt : str) :
  exists sql fallback,
    generate_sql w prompt =
      ([EvQueryCall (query_prompt prompt)], Ok (sql, fallback)) /\
    (fallback = None <-> truthy sql = true) /\
    match query_agent_run w (query_prompt prompt) with
    | Ok r =>
        extract_sql_from_response (content_of r) = ret sql /\
        (truthy sql = false -> fallback = Some (content_of r))
    | Raise e =>
        sql = None /\
        fallback = Some (s2l "SQL generation failed: " ++ str_of_exn e)
    end.
Proof.
  rewrite generate_sql_eq.
  destruct (query_agent_run w (query_prompt prompt)) as [r|e].
  - eexists _, _. split; [reflexivity|].
    destruct (truthy (extracted (content_of r))) eqn:T; cbn [negb].
    + repeat split; try congruence. apply extract_value.
    + repeat split; try congruence. apply extract_value.
  - eexists _, _. split; [reflexivity|].
    repeat split; try discriminate.
Qed.

(** X8: once the validation agent has answered, [main] runs to its end
    whatever the other calls do, and closes the session once, as its last
    act. *)
Theorem main_closes_session {row} (str_rows : list row -> str) (w : world row)
    (prompt : str) (rv : response) :
  validation_agent_run w prompt = Ok rv ->
  exists t,
    main str_rows w prompt = (t ++ [EvClose], Ok tt) /\ ~ In EvClose t.
Proof.
  intros V. rewrite main_run, V.
  destruct (str_eq _ _).
  - destruct (query_agent_run w _) as [r|e].
    + destruct (extracted _) as [[|c s]|].
      * eexists [_; _; _; _]. split; [reflexivity|].
        intros [H|[H|[H|[H|[]]]]]; discriminate.
      * eexists [_; _; _; _; _; _; _]. split; [reflexivity|].
        intros [H|[H|[H|[H|[H|[H|[H|[]]]]]]]]; discriminate.
      * eexists [_; _; _; _]. split; [reflexivity|].
        intros [H|[H|[H|[H|[]]]]]; discriminate.
    + eexists [_; _; _; _]. split; [reflexivity|].
      intros [H|[H|[H|[H|[]]]]]; discriminate.
  - eexists [_; _]. split; [reflexivity|].
    intros [H|[H|[]]]; discriminate.
Qed.

Lemma main_closes_session_witness :
  let w := scripted (Ok (WithContent (s2l "VALID")))
             (Raise (Exception (s2l "rate limit")))
             (Raise (Exception (s2l "rate limit")))
             (Raise (Exception (s2l "no such table"))) in
  exists t,
    main show_rows w (s2l "List all flights") = (t ++ [EvClose], Ok tt) /\
    ~ In EvClose t.
Proof.
  intros w.
  apply (main_closes_session show_rows w (s2l "List all flights")
           (WithContent (s2l "VALID"))).
  vm_compute. reflexivity.
Defined.

(** X9: in every run the stages come in one fixed order, none twice: a
    run is the validation alone (when it fails), or stops after the
    validation or after the generation, or goes through all four calls;
    the execution never comes without the summarization. *)
Theorem main_stage_order {row} (str_rows : list row -> str) (w : world row)
    (prompt : str) :
  In (stages (fst (main str_rows w prompt)))
     [[Validation];
      [Validation; Closing];
      [Validation; Generation; Closing];
      [Validation; Generation; Execution; Summarization; Closing]].
Proof.
  rewrite main_run.
  destruct (validation_agent_run w prompt) as [rv|e]; [|now left].
  destruct (str_eq _ _); [|right; now left].
  destruct (query_agent_run w _) as [r|e]; [|right; right; now left].
  destruct (extracted _) as [[|c s]|].
  - right; right; now left.
  - right; right; right; now left.
  - right; right; now left.
Qed.

(** X10: what [main] executes is what the extractor returned for the
    answer of the query agent, as it is, and it is not empty; nothing is
    executed unless the validation agent answered [VALID]. *)
Theorem executed_sql_provenance {row} (str_rows : list row -> str)
    (w : world row) (prompt sql : str) :
  In (EvExecute sql) (fst (main str_rows w prompt)) ->
  exists rv r,
    validation_agent_run w prompt = Ok rv /\
    upper (strip (content_of rv)) = s2l "VALID" /\
    query_agent_run w (query_prompt prompt) = Ok r /\
    extract_sql_from_response (content_of r) = ret (Some sql) /\
    sql <> [].
Proof.
  rewrite main_run.
  destruct (validation_agent_run w prompt) as [rv|e];
    [|intros [H|[]]; discriminate].
  destruct (str_eq _ _) eqn:T;
    [|intros [H|[H|[H|[]]]]; discriminate].
  destruct (query_agent_run w _) as [r|e];
    [|intros [H|[H|[H|[H|[H|[]]]]]]; discriminate].
  pose proof (extract_value (content_of r)) as X.
  destruct (extracted _) as [[|c s]|];
    try (intros [H|[H|[H|[H|[H|[]]]]]]; discriminate).
  intros [H|[H|[H|[H|[H|[H|[H|[H|[]]]]]]]]]; try discriminate.
  injection H as <-. exists rv, r. repeat split; try assumption.
  - now apply str_eq_true.
  - discriminate.
Qed.

Lemma executed_sql_provenance_witness :
  let w := scripted (Ok (WithContent (s2l " valid ")))
             (Ok (WithContent (s2l "```sql SELECT 1 ```")))
             (Ok (WithContent (s2l "One.")))
             (Ok [s2l "(1,)"]) in
  exists rv r,
    validation_agent_run w (s2l "Count") = Ok rv /\
    upper (strip (content_of rv)) = s2l "VALID" /\
    query_agent_run w (query_prompt (s2l "Count")) = Ok r /\
    extract_sql_from_response (content_of r) = ret (Some (s2l "SELECT 1")) /\
    s2l "SELECT 1" <> [].
Proof.
  intros w.
  apply (executed_sql_provenance show_rows w (s2l "Count") (s2l "SELECT 1")).
  vm_compute. tauto.
Defined.

(** X11: when the validation agent answers anything but [VALID] (trimmed,
    in any case), [main] prints the notice, closes the session and does
    nothing else: no other agent and not the datastore is called. *)
Theorem irrelevant_prompt_stops {row} (str_rows : list row -> str)
    (w : world row) (prompt : str) (rv : response) :
  validation_agent_run w prompt = Ok rv ->
  upper (strip (content_of rv)) <> s2l "VALID" ->
  main str_rows w prompt =
  ([EvValidationCall prompt; EvPrint irrelevant_notice; EvClose], Ok tt).
Proof.
  intros V N. rewrite main_run, V.
  destruct (str_eq _ _) eqn:T; [|reflexivity].
  apply str_eq_true in T. contradiction.
Qed.

Lemma irrelevant_prompt_stops_witness :
  let w := scripted (Ok (WithContent (s2l "INVALID")))
             (Ok (WithContent (s2l "```sql SELECT 1 ```")))
             (Ok (WithContent (s2l "One.")))
             (Ok [s2l "(1,)"]) in
  main show_rows w (s2l "Show me all Boeing planes") =
  ([EvValidationCall (s2l "Show me all Boeing planes");
    EvPrint irrelevant_notice; EvClose], Ok tt).
Proof.
  intros w.
  apply (irrelevant_prompt_stops show_rows w (s2l "Show me all Boeing planes")
           (WithContent (s2l "INVALID")));
    vm_compute; [reflexivity | discriminate].
Defined.

(** X12: when the extractor recovers nothing from the answer of the
    query agent, or the empty string, [main] executes nothing: it prints
    the notice and then the answer as it came ([No response.] for an empty
    answer), and closes the session. *)
Theorem extraction_failure_shows_answer {row} (str_rows : list row -> str)
    (w : world row) (prompt : str) (rv r : response) (sql : option str) :
  validation_agent_run w prompt = Ok rv ->
  upper (strip (content_of rv)) = s2l "VALID" ->
  query_agent_run w (query_prompt prompt) = Ok r ->
  extract_sql_from_response (content_of r) = ret sql ->
  truthy sql = false ->
  main str_rows w prompt =
  ([EvValidationCall prompt; EvQueryCall (query_prompt prompt);
    EvPrint extraction_notice;
    EvPrint (match content_of r with
             | [] => s2l "No response."
             | text => text
             end);
    EvClose], Ok tt).
Proof.
  intros V T Q X F. rewrite main_run, V, Q.
  apply str_eq_true in T. rewrite T.
  rewrite extract_value in X.
  assert (E : extracted (content_of r) = sql) by (unfold ret in X; congruence).
  rewrite E. now destruct sql as [[|c s]|].
Qed.

Lemma extraction_failure_shows_answer_witness :
  let w := scripted (Ok (WithContent (s2l "VALID")))
             (Ok (WithContent (s2l "Sorry: ```sql  ``` nothing to run.")))
             (Ok (WithContent (s2l "One.")))
             (Ok [s2l "(1,)"]) in
  main show_rows w (s2l "Count") =
  ([EvValidationCall (s2l "Count"); EvQueryCall (query_prompt (s2l "Count"));
    EvPrint extraction_notice;
    EvPrint (s2l "Sorry: ```sql  ``` nothing to run.");
    EvClose], Ok tt).
Proof.
  intros w.
  etransitivity.
  - apply (extraction_failure_shows_answer show_rows w (s2l "Count")
             (WithContent (s2l "VALID"))
             (WithContent (s2l "Sorry: ```sql  ``` nothing to run."))
             (Some [])); vm_compute; reflexivity.
  - vm_compute. reflexivity.
Defined.

(** X13: when the call of the query agent fails, [main] does not fail: it
    prints the notice and [SQL generation failed: ] with the text of the
    failure, executes nothing and closes the session. *)
Theorem generation_failure_is_shown {row} (str_rows : list row -> str)
    (w : world row) (prompt : str) (rv : response) (e : exn) :
  validation_agent_run w prompt = Ok rv ->
  upper (strip (content_of rv)) = s2l "VALID" ->
  query_agent_run w (query_prompt prompt) = Raise e ->
  main str_rows w prompt =
  ([EvValidationCall prompt; EvQueryCall (query_prompt prompt);
    EvPrint extraction_notice;
    EvPrint (s2l "SQL generation failed: " ++ str_of_exn e);
    EvClose], Ok tt).
Proof.
  intros V T Q. rewrite main_run, V, Q.
  apply str_eq_true in T. now rewrite T.
Qed.

Lemma generation_failure_is_shown_witness :
  let w := scripted (Ok (WithContent (s2l "VALID")))
             (Raise (Exception (s2l "rate limit")))
             (Ok (WithContent (s2l "One.")))
             (Ok [s2l "(1,)"]) in
  main show_rows w (s2l "Count") =
  ([EvValidationCall (s2l "Count"); EvQueryCall (query_prompt (s2l "Count"));
    EvPrint extraction_notice;
    EvPrint (s2l "SQL generation failed: rate limit");
    EvClose], Ok tt).
Proof.
  intros w.
  etransitivity.
  - apply (generation_failure_is_shown show_rows w (s2l "Count")
             (WithContent (s2l "VALID")) (Exception (s2l "rate limit")));
      vm_compute; reflexivity.
  - vm_compute. reflexivity.
Defined.

(** X14: when the call of the summarizer fails after an execution,
    [main] does not fail: it prints the text of the failure after
    [Summarization error: ] as the summary and closes the session. *)
Theorem summarization_failure_is_shown {row} (str_rows : list row -> str)
    (w : world row) (prompt sql : str) (rv r : response)
    (results : query_result row) (e : exn) :
  validation_agent_run w prompt = Ok rv ->
  upper (strip (content_of rv)) = s2l "VALID" ->
  query_agent_run w (query_prompt prompt) = Ok r ->
  extract_sql_from_response (content_of r) = ret (Some sql) ->
  sql <> [] ->
  execute_query w sql = ([EvExecute sql], Ok results) ->
  summarizer_agent_run w (summary_prompt str_rows prompt results) = Raise e ->
  main str_rows w prompt =
  ([EvValidationCall prompt; EvQueryCall (query_prompt prompt);
    EvPrint (nl ++ s2l "✅ Generated SQL:" ++ nl ++ sql);
    EvExecute sql;
    EvPrint (nl ++ s2l "📊 Query Results:" ++ nl ++ str_of_result str_rows results);
    EvSummarizerCall (summary_prompt str_rows prompt results);
    EvPrint (nl ++ s2l "📝 Summary:" ++ nl ++
             s2l "❌ Summarization error: " ++ str_of_exn e);
    EvClose], Ok tt).
Proof.
  intros V T Q X N R S. rewrite main_run, V, Q.
  apply str_eq_true in T. rewrite T.
  rewrite extract_value in X.
  assert (E : extracted (content_of r) = Some sql) by (unfold ret in X; congruence).
  rewrite E. destruct sql as [|c s]; [congruence|].
  rewrite execute_query_run in R.
  assert (E' : match session_execute w (c :: s) with
               | Ok [] => Text no_rows
               | Ok (x :: xs) => Rows (x :: xs)
               | Raise e => Text (execution_error ++ str_of_exn e)
               end = results) by congruence.
  cbv zeta. rewrite E', S. reflexivity.
Qed.

Lemma summarization_failure_is_shown_witness :
  let w := scripted (Ok (WithContent (s2l "VALID")))
             (Ok (WithContent (s2l "```sql SELECT 1 ```")))
             (Raise (Exception (s2l "rate limit")))
             (Ok [s2l "(1,)"]) in
  main show_rows w (s2l "Count") =
  ([EvValidationCall (s2l "Count"); EvQueryCall (query_prompt (s2l "Count"));
    EvPrint (nl ++ s2l "✅ Generated SQL:" ++ nl ++ s2l "SELECT 1");
    EvExecute (s2l "SELECT 1");
    EvPrint (nl ++ s2l "📊 Query Results:" ++ nl ++ s2l "[(1,)]");
    EvSummarizerCall (summary_prompt show_rows (s2l "Count") (Rows [s2l "(1,)"]));
    EvPrint (nl ++ s2l "📝 Summary:" ++ nl ++
             s2l "❌ Summarization error: rate limit");
    EvClose], Ok tt).
Proof.
  intros w.
  etransitivity.
  - apply (summarization_failure_is_shown show_rows w (s2l "Count")
             (s2l "SELECT 1")
             (WithContent (s2l "VALID"))
             (WithContent (s2l "```sql SELECT 1 ```"))
             (Rows [s2l "(1,)"]) (Exception (s2l "rate limit")));
      vm_compute; first [reflexivity | discriminate].
  - vm_compute. reflexivity.
Defined.

End PipelineProps.
